(** * scripts/generate_third_party_license_file.py

    A shallow embedding of the license report script and the properties
    of its report.

    Text is a list of Unicode code points, as a Python [str] is.  The
    two places where the script consults the Unicode character database
    outside ASCII (the class [\w] of a [str] pattern and the white space
    of [str.strip]) take that database as the section variables
    [unicode_alnum] and [unicode_space]; every result holds for any
    database.  Python exceptions are the values of [exn]; a computation
    that can raise returns a [result]. *)

From Stdlib Require Import ZArith NArith List Ascii String Bool Lia.
From stdpp Require Import base option list sorting gmap.

Local Open Scope N_scope.

(** ** Text *)

Definition char := N.
Definition str := list char.

Definition chr (a : ascii) : char := N_of_ascii a.
Arguments chr a%_char : simpl never.

Definition lit (s : string) : str := map N_of_ascii (list_ascii_of_string s).
Arguments lit s%_string.

(** [s.startswith(prefix)] *)
Fixpoint startswith (prefix s : str) : bool :=
  match prefix, s with
  | [], _ => true
  | p :: prefix', c :: s' => (p =? c) && startswith prefix' s'
  | _ :: _, [] => false
  end.

(** The order of [str] under [<=]: lexicographic on code points, so
    every upper case ASCII letter sorts before every lower case one. *)
Fixpoint str_leb (a b : str) : bool :=
  match a, b with
  | [], _ => true
  | _ :: _, [] => false
  | x :: a', y :: b' => (x <? y) || ((x =? y) && str_leb a' b')
  end.

Definition str_le (a b : str) : Prop := str_leb a b = true.

#[global] Instance str_le_dec : RelDecision str_le.
Proof. intros a b. unfold str_le. apply bool_eq_dec. Defined.

(** ** Exceptions *)

Inductive exn :=
| CalledProcessError   (* subprocess.check_output: non-zero exit status *)
| JSONDecodeError      (* json.loads *)
| AttributeError       (* an attribute of None, or a str method of a list *)
| NameError            (* a local variable read before it is bound *)
| TypeError            (* open() of a list *)
| KeyError
| OSError.             (* open() of a file that cannot be opened *)

Inductive result (A : Type) :=
| Ok (a : A)
| Raise (e : exn).
Arguments Ok {A} a.
Arguments Raise {A} e.

#[global] Instance result_ret : MRet result := fun _ a => Ok a.
#[global] Instance result_bind : MBind result := fun _ _ f r =>
  match r with
  | Ok a => f a
  | Raise e => Raise e
  end.

(** ** The fragment of [re] the script uses

    Patterns are built from one-character atoms, greedy repetition of
    an atom, concatenation and one capturing group.  Matching is the
    backtracking search of [re]: at a position the alternatives are
    tried longest repetition first, and the first that lets the rest of
    the pattern match is taken. *)

Inductive atom :=
| Chr (c : char)              (* a literal character *)
| AnyChar                     (* [.]: anything but a line feed *)
| InSet (p : char -> bool).   (* a class, [[...]] *)

Inductive regex :=
| Eps
| One (a : atom)
| Star (a : atom)             (* [a*] *)
| Plus (a : atom)             (* [a+] *)
| Cat (r1 r2 : regex)
| Group (r : regex).          (* [(r)], group 1 *)

Definition accepts (a : atom) (c : char) : bool :=
  match a with
  | Chr c' => c =? c'
  | AnyChar => negb (c =? 10)
  | InSet p => p c
  end.

(** The literal text [s] as a pattern. *)
Definition chars (s : str) : regex := foldr (fun c r => Cat (One (Chr c)) r) Eps s.

(** [a*] then the continuation [k]: the longest run first, giving back
    one character at a time while [k] fails. *)
Fixpoint star_m {R} (p : char -> bool) (s : str) (k : str -> option R) : option R :=
  match s with
  | c :: s' =>
      if p c then
        match star_m p s' k with
        | Some r => Some r
        | None => k s
        end
      else k s
  | [] => k []
  end.

(** [m r s g k]: match [r] at the head of [s], then [k] on what is left;
    [g] is what group 1 holds so far. *)
Fixpoint m {R} (r : regex) (s : str) (g : option str)
    (k : str -> option str -> option R) : option R :=
  match r with
  | Eps => k s g
  | One a =>
      match s with
      | c :: s' => if accepts a c then k s' g else None
      | [] => None
      end
  | Star a => star_m (accepts a) s (fun s' => k s' g)
  | Plus a =>
      match s with
      | c :: s' =>
          if accepts a c then star_m (accepts a) s' (fun s' => k s' g) else None
      | [] => None
      end
  | Cat r1 r2 => m r1 s g (fun s1 g1 => m r2 s1 g1 k)
  | Group r1 =>
      m r1 s g (fun s1 _ => k s1 (Some (take (length s - length s1)%nat s)))
  end.

(** A match object, reduced to what the script reads of it. *)
Record match_object := { group_1 : option str }.

(** [re.match(r, s)]: a match at the start of [s], or [None]. *)
Definition re_match (r : regex) (s : str) : option match_object :=
  m r s None (fun _ g => Some {| group_1 := g |}).

(** [re.search(r, s)]: the match at the leftmost position that has one. *)
Fixpoint re_search (r : regex) (s : str) : option match_object :=
  match re_match r s with
  | Some mo => Some mo
  | None =>
      match s with
      | [] => None
      | _ :: s' => re_search r s'
      end
  end.

(** ** Dependency metadata *)

(** What the scanner reports under a field: a string, or a sequence of
    strings ([licenses] may be either).  These are the values the
    fields have in the scanner's output; a field holding another JSON
    value (null, a number, a boolean, an object) is outside this type,
    and nothing below speaks of it. *)
Inductive value :=
| VStr (s : str)
| VList (l : list str).

(** [if v:] *)
Definition truthy (v : value) : bool :=
  match v with
  | VStr [] | VList [] => false
  | _ => true
  end.

Abbreviation metadata := (gmap str value).

(** ** get_repo_url *)

Definition REPO_EXCEPTIONS : gmap str str :=
  {[ lit "eyes" := lit "https://github.com/cloudhead/eyes.js" ]}.

(** The pattern of line 13: the text https:// and then group 1, any
    run of characters other than a line feed. *)
Definition https_re : regex := Cat (chars (lit "https://")) (Group (Star AnyChar)).

(** Line 11: the repository field of [dep_meta], else the entry of
    [REPO_EXCEPTIONS] for [dep_name], else the text NO REPO. *)
Definition repository_of (dep_name : str) (dep_meta : metadata) : value :=
  default (VStr (default (lit "NO REPO") (REPO_EXCEPTIONS !! dep_name)))
          (dep_meta !! lit "repository").

Definition get_repo_url (dep_name : str) (dep_meta : metadata) : result str :=
  match repository_of dep_name dep_meta with
  | VStr repo_url =>
      if startswith (lit "https") repo_url then
        match re_search https_re repo_url with
        | Some mo =>
            match group_1 mo with
            | Some g => Ok g
            | None => Raise TypeError   (* not reached: the group always takes part *)
            end
        | None => Raise AttributeError  (* None.group *)
        end
      else Ok repo_url
  | VList _ => Raise AttributeError     (* list.startswith *)
  end.

(** ** The script body *)

(** [take_while p s] is the longest prefix of [s] made of [p]
    characters, [drop_while p s] the rest of [s]. *)
Fixpoint take_while (p : char -> bool) (s : str) : str :=
  match s with
  | c :: s' => if p c then c :: take_while p s' else []
  | [] => []
  end.

Fixpoint drop_while (p : char -> bool) (s : str) : str :=
  match s with
  | c :: s' => if p c then drop_while p s' else s
  | [] => []
  end.

(** Reading a file opened in text mode with the default [newline]: a
    carriage return, alone or before a line feed, reads as a line feed. *)
Fixpoint universal_newlines (s : str) : str :=
  match s with
  | [] => []
  | c :: s' =>
      if c =? 13 then
        10 :: match s' with
              | c' :: s'' =>
                  if c' =? 10 then universal_newlines s'' else universal_newlines s'
              | [] => []
              end
      else c :: universal_newlines s'
  end.

(** The lines of a text, each with its line feed (the last may lack one). *)
Fixpoint splitlines (s : str) : list str :=
  match s with
  | [] => []
  | c :: s' =>
      if c =? 10 then [c] :: splitlines s'
      else match splitlines s' with
           | [] => [[c]]
           | l :: ls => (c :: l) :: ls
           end
  end.

(** [for line in f] *)
Definition readlines (content : str) : list str :=
  splitlines (universal_newlines content).

(** The pattern of line 36. *)
Definition copyright_re : regex := chars (lit "Copyright ").

(** The truth value of what [re.match] returns. *)
Definition matched (o : option match_object) : bool :=
  match o with Some _ => true | None => false end.

Record record := {
  Component : str;
  Origin : str;
  License : value;
  Copyright : str
}.

Abbreviation graph := (gmap str metadata).

(** The scanner as the script meets it: the exit status of the
    subprocess, and what [json.loads] makes of its output, [None] when
    the output is not valid JSON. *)
Record scanner_run := {
  returncode : Z;
  parsed : option graph
}.

Record csv_document := {
  fieldnames : list str;
  rows : list record
}.

(** The files the script touches: the text of the files [open] can
    open and read, by path; whether LICENSE-3rdparty.csv can be opened
    for writing; and that file as the csv module wrote it, a header and
    rows, [None] while it does not exist. *)
Record world := {
  files : gmap str str;
  csv_writable : bool;
  csv_file : option csv_document
}.

Definition header : list str :=
  [lit "Component"; lit "Origin"; lit "License"; lit "Copyright"].

Section Script.

(** [str.isalnum] and [str.isspace] on the code points above 127. *)
Variable unicode_alnum : char -> bool.
Variable unicode_space : char -> bool.

(** [\w] of a [str] pattern. *)
Definition is_word (c : char) : bool :=
  if c <? 128 then
    ((48 <=? c) && (c <=? 57)) || ((65 <=? c) && (c <=? 90))
    || ((97 <=? c) && (c <=? 122)) || (c =? 95)
  else unicode_alnum c.

(** The class of line 27: a word character or a hyphen. *)
Definition name_char (c : char) : bool := is_word c || (c =? 45).

(** The pattern of line 27: group 1, a run of one or more [name_char],
    and then the character [@]. *)
Definition name_re : regex := Cat (Group (Plus (InSet name_char))) (One (Chr (chr "@"))).

(** White space as [str.strip] sees it. *)
Definition is_space (c : char) : bool :=
  if c <? 128 then ((9 <=? c) && (c <=? 13)) || ((28 <=? c) && (c <=? 32))
  else unicode_space c.

Definition lstrip (s : str) : str := drop_while is_space s.
Definition rstrip (s : str) : str := reverse (drop_while is_space (reverse s)).
(** [s.strip()] *)
Definition strip (s : str) : str := rstrip (lstrip s).

(** Lines 34 to 38: what [dep_copyright] is bound to after them, [None]
    for a variable that is still unbound. *)
Definition extract_copyright (files : gmap str str) (dep_meta : metadata)
    (dep_copyright : option str) : result (option str) :=
  let license_file := default (VStr []) (dep_meta !! lit "licenseFile") in
  if truthy license_file then
    match license_file with
    | VStr path =>
        match files !! path with
        | Some content =>
            let matches :=
              List.filter (fun line => matched (re_match copyright_re line))
                          (readlines content) in
            match matches with
            | line :: _ => Ok (Some (strip line))
            | [] => Ok dep_copyright
            end
        | None => Raise OSError
        end
    | VList _ => Raise TypeError
    end
  else Ok dep_copyright.

(** One turn of the loop of line 25: the new binding of [dep_copyright]
    and the record appended to [formatted_deps]. *)
Definition format_dep (deps : graph) (files : gmap str str)
    (dep_copyright : option str) (dep : str) : result (option str * record) :=
  dep_meta ← from_option Ok (Raise KeyError) (deps !! dep);
  mo ← from_option Ok (Raise AttributeError) (re_search name_re dep);
  (* group 1 takes part in every match of [name_re] *)
  dep_name ← from_option Ok (Raise TypeError) (group_1 mo);
  repo_url ← get_repo_url dep_name dep_meta;
  dep_copyright' ← extract_copyright files dep_meta dep_copyright;
  let license := default (VStr (lit "LICENSE NOT FOUND")) (dep_meta !! lit "licenses") in
  c ← from_option Ok (Raise NameError) dep_copyright';
  Ok (dep_copyright',
      {| Component := dep_name; Origin := repo_url; License := license; Copyright := c |}).

Fixpoint loop (deps : graph) (files : gmap str str) (keys : list str)
    (dep_copyright : option str) (formatted_deps : list record) : result (list record) :=
  match keys with
  | [] => Ok formatted_deps
  | dep :: keys' =>
      match format_dep deps files dep_copyright dep with
      | Ok (dep_copyright', r) => loop deps files keys' dep_copyright' (formatted_deps ++ [r])
      | Raise e => Raise e
      end
  end.

(** [sorted(deps.keys())] *)
Definition alphabetized_dep_names (deps : graph) : list str :=
  merge_sort str_le (map fst (map_to_list deps)).

(** The script, from line 18 on: its outcome and the files after it.
    Lines 49 to 54 are taken as one step that writes the header and
    every row; a write that the csv writer or the encoder gives up
    half-way is not modelled, so [Ok] here says that lines 18 to 47
    raised nothing and the file could be opened. *)
Definition main (sc : scanner_run) (w : world) : result unit * world :=
  if negb (returncode sc =? 0)%Z then (Raise CalledProcessError, w)
  else
    match parsed sc with
    | None => (Raise JSONDecodeError, w)
    | Some deps =>
        match loop deps (files w) (alphabetized_dep_names deps) None [] with
        | Raise e => (Raise e, w)
        | Ok formatted_deps =>
            if csv_writable w then
              (Ok (),
               {| files := files w; csv_writable := true;
                  csv_file := Some {| fieldnames := header; rows := formatted_deps |} |})
            else (Raise OSError, w)
        end
    end.


(** ** Statements about keys, in the words of the report's description *)

(** The text of a key before its first [@] (the whole key if it has none). *)
Definition before_first_at (key : str) : str :=
  take_while (fun c => negb (c =? chr "@")) key.

(** Some [@] of [s] stands right after a [name_char]. *)
Fixpoint name_before_at (s : str) : bool :=
  match s with
  | c :: s' => (name_char c && startswith [chr "@"] s') || name_before_at s'
  | [] => false
  end.

(** No [@] of [key] stands right after a word character or a hyphen
    (a key without any [@] is such a key). *)
Definition no_name_before_any_at (key : str) : Prop :=
  forall i c, key !! i = Some c -> key !! S i = Some (chr "@") -> name_char c = false.

(** [name] is the first run of word characters and hyphens of [key]
    that an [@] follows, taken whole: it does not continue to the left,
    and no [@] before it stands right after such a character. *)
Definition first_name_of (key name : str) : Prop :=
  exists pre post,
    key = pre ++ name ++ chr "@" :: post
    /\ name <> []
    /\ Forall (fun c => name_char c = true) name
    /\ name_before_at pre = false
    /\ (forall c, last pre = Some c -> name_char c = false).

(** [t] is [s] without the white space at its end. *)
Definition trimmed_right (s t : str) : Prop :=
  exists ws,
    s = t ++ ws
    /\ Forall (fun c => is_space c = true) ws
    /\ (forall c, last t = Some c -> is_space c = false).

(** [r] is the record the loop body makes for [key]. *)
Definition made_for (deps : graph) (files : gmap str str) (key : str) (r : record) : Prop :=
  exists c c', format_dep deps files c key = Ok (c', r).

(** The metadata names no license file, or one that has no line
    starting with the text of line 36. *)
Definition lacks_copyright (files : gmap str str) (meta : metadata) : Prop :=
  meta !! lit "licenseFile" = None
  \/ exists path content,
       meta !! lit "licenseFile" = Some (VStr path)
       /\ files !! path = Some content
       /\ Forall (fun line => startswith (lit "Copyright ") line = false)
                 (readlines content).

(** *** The graphs the loop gets through

    [well_formed] is the condition the code puts on a graph, not one
    the description asks of its input: every key has a name, every
    repository value can be normalised, every license file named can be
    read, and the first key in order has a license file with a
    copyright line (so that [dep_copyright] is bound from the first
    turn of the loop on). *)

Definition origin_ok (meta : metadata) : bool :=
  match meta !! lit "repository" with
  | None => true
  | Some (VStr u) => negb (startswith (lit "https") u) || matched (re_search https_re u)
  | Some (VList _) => false
  end.

Definition license_file_ok (files : gmap str str) (meta : metadata) : bool :=
  match meta !! lit "licenseFile" with
  | None | Some (VStr []) | Some (VList []) => true
  | Some (VStr path) => bool_decide (is_Some (files !! path))
  | Some (VList _) => false
  end.

Definition has_copyright_line (files : gmap str str) (meta : metadata) : bool :=
  match meta !! lit "licenseFile" with
  | Some (VStr path) =>
      match files !! path with
      | Some content =>
          truthy (VStr path)
          && existsb (startswith (lit "Copyright ")) (readlines content)
      | None => false
      end
  | _ => false
  end.

Definition dep_ok (deps : graph) (files : gmap str str) (key : str) : bool :=
  match deps !! key with
  | Some meta => name_before_at key && origin_ok meta && license_file_ok files meta
  | None => false
  end.

Definition well_formed (files : gmap str str) (deps : graph) : Prop :=
  Forall (fun key => dep_ok deps files key = true) (alphabetized_dep_names deps)
  /\ match alphabetized_dep_names deps with
     | key :: _ =>
         exists meta, deps !! key = Some meta /\ has_copyright_line files meta = true
     | [] => True
     end.

(** *** Sample runs *)

(** A character database with no letters, digits or white space
    outside ASCII, for runs on ASCII text (where any database gives
    the same run). *)
Definition ascii_only : char -> bool := fun _ => false.

Definition abbrev_license : str :=
  lit "The ISC License" ++ [13; 10]
  ++ lit "Copyright (c) Isaac Z. Schlueter and Contributors  " ++ [13; 10]
  ++ lit "Permission to use, copy, modify, and/or distribute this software".

Definition abbrev_copyright : str :=
  lit "Copyright (c) Isaac Z. Schlueter and Contributors".

Definition abbrev_meta : metadata :=
  {[ lit "repository" := VStr (lit "https://github.com/isaacs/abbrev-js");
     lit "licenses" := VStr (lit "ISC");
     lit "licenseFile" := VStr (lit "node_modules/abbrev/LICENSE") ]}.

Definition sample_files : gmap str str :=
  {[ lit "node_modules/abbrev/LICENSE" := abbrev_license ]}.

Definition sample_world : world :=
  {| files := sample_files; csv_writable := true; csv_file := None |}.

Definition written (recs : list record) : world :=
  {| files := sample_files; csv_writable := true;
     csv_file := Some {| fieldnames := header; rows := recs |} |}.

Definition scanned (deps : graph) : scanner_run :=
  {| returncode := 0; parsed := Some deps |}.

(** Two dependencies, the second without a license file. *)
Definition two_deps : graph :=
  {[ lit "abbrev@1.1.1" := abbrev_meta;
     lit "eyes@0.1.8" := {[ lit "licenses" := VStr (lit "MIT") ]} ]}.

Definition abbrev_record : record :=
  {| Component := lit "abbrev"; Origin := lit "github.com/isaacs/abbrev-js";
     License := VStr (lit "ISC"); Copyright := abbrev_copyright |}.

Definition eyes_record : record :=
  {| Component := lit "eyes"; Origin := lit "github.com/cloudhead/eyes.js";
     License := VStr (lit "MIT"); Copyright := abbrev_copyright |}.

(** A scoped package. *)
Definition scoped_deps : graph := {[ lit "@datadog/native-metrics@1.0.0" := abbrev_meta ]}.

Definition scoped_record : record :=
  {| Component := lit "native-metrics"; Origin := lit "github.com/isaacs/abbrev-js";
     License := VStr (lit "ISC"); Copyright := abbrev_copyright |}.

(** The graph of the first scenario of the description: no license file. *)
Definition foo_deps : graph :=
  {[ lit "foo@1.0.0" := {[ lit "repository" := VStr (lit "https://github.com/x/foo");
                           lit "licenses" := VStr (lit "MIT") ]} ]}.

(** The graph of the second scenario of the description: no license
    file either. *)
Definition eyes_deps : graph :=
  {[ lit "eyes@0.1.0" := {[ lit "licenses" := VList [lit "MIT"] ]} ]}.

(** A key without a version, and no license file. *)
Definition bare_deps : graph := {[ lit "left-pad" := ∅ ]}.

(** A scanner that exited with status 1, and a report left by an
    earlier run. *)
Definition failed_scan : scanner_run := {| returncode := 1; parsed := None |}.

Definition old_world : world :=
  {| files := sample_files; csv_writable := true;
     csv_file := Some {| fieldnames := header; rows := [abbrev_record] |} |}.

(** A repository value with one slash too few. *)
Definition typo_meta : metadata :=
  {[ lit "repository" := VStr (lit "https:/github.com/x/foo") ]}.

(** A repository value that is no URL but starts with the letters https. *)
Definition mirror_meta : metadata :=
  {[ lit "repository" := VStr (lit "https-mirror.example.org/x/foo") ]}.

(** A dependency whose license file is not there. *)
Definition missing_deps : graph :=
  {[ lit "abbrev@1.1.1" := abbrev_meta;
     lit "zlib@1.0.0" := {[ lit "licenseFile" := VStr (lit "node_modules/zlib/LICENSE") ]} ]}.

(** *** Further statements *)

(** The text [p] occurs somewhere in [s]. *)
Definition occurs_in (p s : str) : Prop := exists pre post, s = pre ++ p ++ post.

(** What [dep_copyright] holds when turn [i] of the loop starts, the
    loop having started with [c] and made the rows [rs]: the Copyright
    of the row before, which line 45 has just read. *)
Definition carried (c : option str) (rs : list record) (i : nat) : option str :=
  match i with
  | O => c
  | S j => Copyright <$> rs !! j
  end.

(** A line as [for line in f] yields it: not empty, and with no line
    feed but the one that may end it. *)
Definition is_line (l : str) : Prop :=
  exists body,
    Forall (fun c => c <> 10) body
    /\ (l = body ++ [10] \/ (l = body /\ body <> [])).

(** * Properties *)

(** ** Text *)

Lemma startswith_app (p s : str) : startswith p (p ++ s) = true.
Proof.
  induction p as [|c p IH]; simpl; [done|].
  by rewrite N.eqb_refl, IH.
Qed.

Lemma startswith_inv (p s : str) :
  startswith p s = true -> s = p ++ drop (length p) s.
Proof.
  revert s. induction p as [|c p IH]; intros [|d s]; simpl; try done.
  intros [->%N.eqb_eq Hs]%andb_true_iff. f_equal. by apply IH.
Qed.

Lemma take_drop_while (p : char -> bool) (s : str) :
  take_while p s ++ drop_while p s = s.
Proof.
  induction s as [|c s IH]; simpl; [done|].
  destruct (p c); simpl; [by rewrite IH | done].
Qed.

Lemma take_while_Forall (p : char -> bool) (s : str) :
  Forall (fun c => p c = true) (take_while p s).
Proof.
  induction s as [|c s IH]; simpl; [constructor|].
  destruct (p c) eqn:Hc; by constructor.
Qed.

Lemma drop_while_head (p : char -> bool) (s : str) (c : char) :
  head (drop_while p s) = Some c -> p c = false.
Proof.
  induction s as [|d s IH]; simpl; [done|].
  destruct (p d) eqn:Hd; simpl; [done | congruence].
Qed.

Lemma take_while_all (p : char -> bool) (s : str) :
  Forall (fun c => p c = true) s -> take_while p s = s.
Proof.
  induction 1 as [|c s Hc _ IH]; simpl; [done|]. by rewrite Hc, IH.
Qed.

Lemma take_while_app_stop (p : char -> bool) (s t : str) (d : char) :
  Forall (fun c => p c = true) s -> p d = false ->
  take_while p (s ++ d :: t) = s.
Proof.
  intros Hs Hd. induction Hs as [|c s Hc _ IH]; simpl.
  - by rewrite Hd.
  - by rewrite Hc, IH.
Qed.

Lemma drop_while_app_stop (p : char -> bool) (s t : str) (d : char) :
  Forall (fun c => p c = true) s -> p d = false ->
  drop_while p (s ++ d :: t) = d :: t.
Proof.
  intros Hs Hd. induction Hs as [|c s Hc _ IH]; simpl.
  - by rewrite Hd.
  - by rewrite Hc.
Qed.

Lemma drop_while_length (p : char -> bool) (s : str) :
  (length (drop_while p s) <= length s)%nat.
Proof.
  induction s as [|c s IH]; simpl; [lia|]. destruct (p c); simpl; lia.
Qed.

(** What a group that ends where a greedy run ends has captured. *)
Lemma take_length_drop_while (p : char -> bool) (s : str) :
  take (length s - length (drop_while p s)) s = take_while p s.
Proof.
  rewrite <- (take_drop_while p s) at 1 3.
  rewrite length_app.
  replace (length (take_while p s) + length (drop_while p s) - length (drop_while p s))%nat
    with (length (take_while p s)) by lia.
  apply take_app_length.
Qed.

(** ** The matcher *)

(** A greedy run keeps all of itself when the rest of the pattern then
    matches. *)
Lemma star_m_first {R} (p : char -> bool) (s : str) (k : str -> option R) (x : R) :
  k (drop_while p s) = Some x -> star_m p s k = Some x.
Proof.
  induction s as [|c s IH]; simpl; [done|].
  destruct (p c); [|done]. intros Hk. by rewrite (IH Hk).
Qed.

(** Giving characters back does not help a continuation that refuses
    every text starting with a character of the run. *)
Lemma star_m_commit {R} (p : char -> bool) (s : str) (k : str -> option R) :
  (forall c t, p c = true -> k (c :: t) = None) ->
  star_m p s k = k (drop_while p s).
Proof.
  intros Hk. induction s as [|c s IH]; simpl; [done|].
  destruct (p c) eqn:Hc; [|done].
  rewrite IH. destruct (k (drop_while p s)); [done|]. by apply Hk.
Qed.

Lemma m_chars {R} (p s : str) (g : option str) (k : str -> option str -> option R) :
  m (chars p) s g k = if startswith p s then k (drop (length p) s) g else None.
Proof.
  revert s. induction p as [|c p IH]; intros s; simpl; [done|].
  destruct s as [|d s]; [done|]. rewrite (N.eqb_sym c d).
  destruct (d =? c); simpl; [apply IH | done].
Qed.

(** A pattern of literal characters matches exactly the texts that
    start with them. *)
Lemma re_match_chars (p s : str) : matched (re_match (chars p) s) = startswith p s.
Proof. unfold re_match. rewrite m_chars. by destruct (startswith p s). Qed.

Lemma re_match_https (s : str) :
  re_match https_re s =
    if startswith (lit "https://") s
    then Some {| group_1 := Some (take_while (accepts AnyChar) (drop 8 s)) |}
    else None.
Proof.
  unfold re_match, https_re.
  change (m (Cat ?r1 ?r2) s None ?k) with (m r1 s None (fun s1 g1 => m r2 s1 g1 k)).
  rewrite m_chars. destruct (startswith _ s); [|done].
  change (length (lit "https://")) with 8%nat. simpl.
  apply star_m_first. by rewrite take_length_drop_while.
Qed.

Lemma re_search_https_group (s : str) (mo : match_object) :
  re_search https_re s = Some mo -> is_Some (group_1 mo).
Proof.
  induction s as [|c s IH]; cbn [re_search]; rewrite re_match_https.
  - done.
  - destruct (startswith _ (c :: s)); [|exact IH].
    intros [= <-]. simpl. eauto.
Qed.

Lemma re_search_at_start (r : regex) (s : str) (mo : match_object) :
  re_match r s = Some mo -> re_search r s = Some mo.
Proof. intros H. destruct s; simpl; by rewrite H. Qed.

(** ** get_repo_url *)

Lemma get_repo_url_plain (dep_name : str) (dep_meta : metadata) (u : str) :
  repository_of dep_name dep_meta = VStr u ->
  startswith (lit "https") u = false ->
  get_repo_url dep_name dep_meta = Ok u.
Proof. intros H1 H2. unfold get_repo_url. by rewrite H1, H2. Qed.

(** A value that starts with https:// loses that prefix, and whatever
    follows its first line feed. *)
Lemma get_repo_url_https (dep_name : str) (dep_meta : metadata) (rest : str) :
  repository_of dep_name dep_meta = VStr (lit "https://" ++ rest) ->
  get_repo_url dep_name dep_meta = Ok (take_while (accepts AnyChar) rest).
Proof.
  intros H1.
  assert (re_search https_re (lit "https://" ++ rest)
          = Some {| group_1 := Some (take_while (accepts AnyChar) rest) |}) as Hs.
  { apply re_search_at_start. rewrite re_match_https, startswith_app.
    change 8%nat with (length (lit "https://")). by rewrite drop_app_length. }
  assert (startswith (lit "https") (lit "https://" ++ rest) = true) as Hp
    by reflexivity.
  unfold get_repo_url. by rewrite H1, Hp, Hs.
Qed.

Lemma get_repo_url_https_line (dep_name : str) (dep_meta : metadata) (rest : str) :
  repository_of dep_name dep_meta = VStr (lit "https://" ++ rest) ->
  Forall (fun c => c <> 10) rest ->
  get_repo_url dep_name dep_meta = Ok rest.
Proof.
  intros H1 Hrest. rewrite (get_repo_url_https _ _ _ H1). f_equal.
  apply take_while_all. eapply Forall_impl; [exact Hrest|].
  intros c Hc. simpl. by apply negb_true_iff, N.eqb_neq.
Qed.

(** ** The name of a key *)

Lemma name_char_at : name_char (chr "@") = false.
Proof. reflexivity. Qed.

Lemma name_char_not_at (c : char) : name_char c = true -> (c =? chr "@") = false.
Proof.
  intros Hc. apply N.eqb_neq. intros ->. by rewrite name_char_at in Hc.
Qed.

(** A match of [name_re] at the start of [s]: the longest run of
    [name_char] there, if it is not empty and an [@] follows it. *)
Lemma re_match_name (s : str) :
  re_match name_re s =
    match s with
    | c :: s' =>
        if name_char c then
          match drop_while name_char s' with
          | d :: _ =>
              if d =? chr "@"
              then Some {| group_1 := Some (c :: take_while name_char s') |}
              else None
          | [] => None
          end
        else None
    | [] => None
    end.
Proof.
  unfold re_match, name_re. destruct s as [|c s']; [done|].
  cbn [m accepts]. destruct (name_char c) eqn:Hc; [|done].
  change (accepts (InSet name_char)) with name_char.
  rewrite star_m_commit.
  - destruct (drop_while name_char s') as [|d t] eqn:Hd; [done|].
    destruct (d =? chr "@"); [|done]. do 3 f_equal.
    pose proof (drop_while_length name_char s') as Hlen. rewrite Hd in Hlen.
    cbn [length] in *.
    replace (S (length s') - S (length t))%nat with (S (length s' - S (length t))) by lia.
    cbn [take]. f_equal.
    change (S (length t)) with (length (d :: t)). rewrite <- Hd.
    apply take_length_drop_while.
  - intros c' t Hc'. by rewrite (name_char_not_at c' Hc').
Qed.

Lemma startswith_at (s : str) :
  startswith [chr "@"] s = true ->
  drop_while name_char s = s /\ exists t, s = chr "@" :: t.
Proof.
  destruct s as [|d s]; cbn [startswith]; [done|].
  rewrite andb_true_r. intros <-%N.eqb_eq.
  cbn [drop_while]. rewrite name_char_at. eauto.
Qed.

Lemma name_before_at_run (c : char) (s t : str) :
  name_char c = true -> drop_while name_char s = chr "@" :: t ->
  name_before_at (c :: s) = true.
Proof.
  revert c. induction s as [|d s IH]; intros c Hc; cbn [drop_while]; [done|].
  change (name_before_at (c :: d :: s))
    with ((name_char c && startswith [chr "@"] (d :: s)) || name_before_at (d :: s)).
  destruct (name_char d) eqn:Hd; intros Hs.
  - rewrite (IH d Hd Hs). apply orb_true_r.
  - assert (d = chr "@") as -> by congruence.
    cbn [startswith]. by rewrite Hc, N.eqb_refl.
Qed.

(** [re.search] finds no name in a key exactly when no [@] of the key
    stands right after a word character or a hyphen. *)
Lemma re_search_name_None (key : str) :
  re_search name_re key = None <-> name_before_at key = false.
Proof.
  induction key as [|c s IH]; [done|].
  cbn [re_search name_before_at]. rewrite re_match_name.
  destruct (name_char c) eqn:Hc; cbn [andb orb]; [|exact IH].
  destruct (drop_while name_char s) as [|d t] eqn:Hd.
  - rewrite IH. destruct (startswith [chr "@"] s) eqn:Hat; [|done].
    destruct (startswith_at s Hat) as [Hs [t' ->]]. congruence.
  - destruct (N.eqb_spec d (chr "@")) as [->|Hne].
    + split; [done|]. intros H.
      pose proof (name_before_at_run c s t Hc Hd) as Hrun.
      cbn [name_before_at] in Hrun. rewrite Hc in Hrun. cbn [andb] in Hrun.
      congruence.
    + rewrite IH. destruct (startswith [chr "@"] s) eqn:Hat; [|done].
      destruct (startswith_at s Hat) as [Hs [t' ->]]. congruence.
Qed.

Lemma name_before_at_spec (key : str) :
  name_before_at key = false <-> no_name_before_any_at key.
Proof.
  unfold no_name_before_any_at. induction key as [|c s IH]; [done|].
  cbn [name_before_at]. rewrite orb_false_iff, IH. split.
  - intros [H1 H2] [|i] d Hd Hat; cbn in Hd, Hat.
    + injection Hd as <-. destruct s as [|e s]; [done|]. cbn in Hat.
      assert (e = chr "@") as -> by congruence.
      cbn [startswith] in H1. rewrite N.eqb_refl in H1. cbn [andb] in H1.
      by rewrite andb_true_r in H1.
    + by apply (H2 i).
  - intros H. split.
    + destruct (startswith [chr "@"] s) eqn:Hat; [|apply andb_false_r].
      destruct (startswith_at s Hat) as [_ [t ->]].
      by rewrite (H 0%nat c).
    + intros i d Hd Hat. by apply (H (S i)).
Qed.

Lemma name_before_at_names (s : str) :
  Forall (fun c => name_char c = true) s -> name_before_at s = false.
Proof.
  induction 1 as [|c s Hc Hs IH]; [done|].
  cbn [name_before_at]. rewrite IH, orb_false_r.
  destruct Hs as [|d s Hd _]; [apply andb_false_r|].
  cbn [startswith]. rewrite (N.eqb_sym (chr "@") d), (name_char_not_at d Hd).
  apply andb_false_r.
Qed.

(** A key that starts with word characters and hyphens up to an [@]
    has these as its name. *)
Lemma re_search_name_prefix (pre post : str) :
  pre <> [] -> Forall (fun c => name_char c = true) pre ->
  re_search name_re (pre ++ chr "@" :: post) = Some {| group_1 := Some pre |}.
Proof.
  intros Hne Hpre. destruct Hpre as [|c pre Hc Hpre]; [done|].
  apply re_search_at_start. rewrite re_match_name.
  cbn [app]. rewrite Hc, drop_while_app_stop by (done || apply name_char_at).
  by rewrite N.eqb_refl, take_while_app_stop by (done || apply name_char_at).
Qed.

(** What [re.search] finds in a key: group 1 holds the first run of
    word characters and hyphens that an [@] follows. *)
Lemma re_search_name_Some (key : str) (mo : match_object) :
  re_search name_re key = Some mo ->
  exists name, group_1 mo = Some name /\ first_name_of key name.
Proof.
  induction key as [|c s IH]; [done|].
  cbn [re_search]. destruct (re_match name_re (c :: s)) as [mo'|] eqn:Hm.
  - intros [= <-]. rewrite re_match_name in Hm.
    destruct (name_char c) eqn:Hc; [|done].
    destruct (drop_while name_char s) as [|d t] eqn:Hd; [done|].
    destruct (N.eqb_spec d (chr "@")) as [->|]; [|done].
    injection Hm as <-. eexists; split; [done|].
    exists [], t. split_and!; try done.
    + rewrite <- Hd. cbn [app]. by rewrite take_drop_while.
    + constructor; [done | apply take_while_Forall].
  - intros Hs. destruct (IH Hs) as (name & Hg & pre & post & -> & Hne & Hname & Hpre & Hlast).
    exists name. split; [done|]. exists (c :: pre), post.
    assert (name_char c = true -> forall t, drop_while name_char
              (pre ++ name ++ chr "@" :: post) <> chr "@" :: t) as Hno.
    { intros Hc t Ht. rewrite re_match_name, Hc, Ht, N.eqb_refl in Hm. done. }
    split_and!; try done.
    + cbn [name_before_at]. rewrite Hpre, orb_false_r.
      destruct (name_char c) eqn:Hc; [|done]. cbn [andb].
      destruct (startswith [chr "@"] pre) eqn:Hat; [|done].
      destruct (startswith_at pre Hat) as [_ [t ->]].
      exfalso. apply (Hno eq_refl (t ++ name ++ chr "@" :: post)).
      cbn [app drop_while]. by rewrite name_char_at.
    + intros d. destruct pre as [|e pre].
      * intros [= <-]. destruct (name_char c) eqn:Hc; [|done].
        exfalso. apply (Hno eq_refl post). cbn [app].
        apply drop_while_app_stop; [done | apply name_char_at].
      * rewrite last_cons_cons. apply Hlast.
Qed.

Lemma before_first_at_split (key : str) :
  key = before_first_at key
  \/ exists post, key = before_first_at key ++ chr "@" :: post.
Proof.
  unfold before_first_at.
  pose proof (take_drop_while (fun c => negb (c =? chr "@")) key) as Hk.
  destruct (drop_while _ key) as [|d t] eqn:Hd.
  - left. by rewrite app_nil_r in Hk.
  - right. exists t.
    assert (negb (d =? chr "@") = false) as Hat
      by (apply (drop_while_head (fun c => negb (c =? chr "@")) key); by rewrite Hd).
    apply negb_false_iff, N.eqb_eq in Hat. by subst d.
Qed.

(** The name of a key whose text before its first [@] is made of word
    characters and hyphens is that text. *)
Lemma re_search_name_simple (key : str) (mo : match_object) :
  re_search name_re key = Some mo ->
  before_first_at key <> [] ->
  Forall (fun c => name_char c = true) (before_first_at key) ->
  group_1 mo = Some (before_first_at key).
Proof.
  intros Hs Hne Hall. remember (before_first_at key) as b eqn:Hb.
  assert (key = b \/ exists post, key = b ++ chr "@" :: post) as [->|[post ->]]
    by (rewrite Hb; apply before_first_at_split).
  - apply name_before_at_names, re_search_name_None in Hall. congruence.
  - rewrite re_search_name_prefix in Hs by done. by injection Hs as <-.
Qed.

(** ** strip *)

Lemma rstrip_trimmed (s : str) : trimmed_right s (rstrip s).
Proof.
  unfold rstrip. exists (reverse (take_while is_space (reverse s))). split_and!.
  - rewrite <- reverse_app, take_drop_while. by rewrite reverse_involutive.
  - apply Forall_reverse, take_while_Forall.
  - intros c. rewrite last_reverse. apply drop_while_head.
Qed.

(** A line that starts with the text of line 36 has no white space to
    lose at its start. *)
Lemma strip_copyright_line (line : str) :
  startswith (lit "Copyright ") line = true -> strip line = rstrip line.
Proof.
  intros H. apply startswith_inv in H. unfold strip, lstrip. by rewrite H.
Qed.

(** ** The order of keys *)

Lemma str_leb_refl (a : str) : str_leb a a = true.
Proof.
  induction a as [|x a IH]; [done|]. cbn [str_leb].
  by rewrite N.eqb_refl, IH, orb_true_r.
Qed.

Lemma str_leb_total (a b : str) : str_leb a b = true \/ str_leb b a = true.
Proof.
  revert b. induction a as [|x a IH]; intros [|y b]; cbn [str_leb]; auto.
  destruct (N.ltb_spec x y) as [Hxy|Hxy]; [by left|].
  destruct (N.ltb_spec y x) as [Hyx|Hyx]; [by right|].
  assert (x = y) as -> by lia. rewrite N.eqb_refl. cbn [orb andb]. apply IH.
Qed.

Lemma str_leb_trans (a b c : str) :
  str_leb a b = true -> str_leb b c = true -> str_leb a c = true.
Proof.
  revert b c. induction a as [|x a IH]; intros [|y b] [|z c]; cbn [str_leb]; try done.
  destruct (N.ltb_spec x y), (N.ltb_spec y z), (N.ltb_spec x z),
    (N.eqb_spec x y), (N.eqb_spec y z), (N.eqb_spec x z);
    cbn [orb andb]; try done; try lia.
  apply IH.
Qed.

Lemma str_leb_antisym (a b : str) :
  str_leb a b = true -> str_leb b a = true -> a = b.
Proof.
  revert b. induction a as [|x a IH]; intros [|y b]; cbn [str_leb]; try done.
  destruct (N.ltb_spec x y), (N.ltb_spec y x), (N.eqb_spec x y), (N.eqb_spec y x);
    cbn [orb andb]; try done; try lia.
  intros. subst. f_equal. by apply IH.
Qed.

#[local] Instance str_le_total : Total str_le.
Proof. intros a b. apply str_leb_total. Qed.

#[local] Instance str_le_po : PartialOrder str_le.
Proof.
  split; [split|].
  - intros a. apply str_leb_refl.
  - intros a b c. apply str_leb_trans.
  - intros a b. apply str_leb_antisym.
Qed.

Lemma alphabetized_sorted (deps : graph) : Sorted str_le (alphabetized_dep_names deps).
Proof. apply (Sorted_merge_sort str_le). Qed.

Lemma alphabetized_perm (deps : graph) :
  alphabetized_dep_names deps ≡ₚ (map_to_list deps).*1.
Proof. apply merge_sort_Permutation. Qed.

Lemma alphabetized_NoDup (deps : graph) : NoDup (alphabetized_dep_names deps).
Proof. rewrite alphabetized_perm. apply NoDup_fst_map_to_list. Qed.

Lemma alphabetized_elem_of (deps : graph) (key : str) :
  key ∈ alphabetized_dep_names deps <-> is_Some (deps !! key).
Proof.
  rewrite alphabetized_perm, list_elem_of_fmap. split.
  - intros [[k meta] [-> Hin]]. apply elem_of_map_to_list in Hin. eauto.
  - intros [meta Hmeta]. exists (key, meta). split; [done|].
    by apply elem_of_map_to_list.
Qed.

Lemma alphabetized_length (deps : graph) :
  length (alphabetized_dep_names deps) = size deps.
Proof. by rewrite alphabetized_perm, length_fmap, length_map_to_list. Qed.

(** [sorted] has one possible result: any other arrangement of the
    keys in ascending order is the same list. *)
Lemma alphabetized_unique (deps : graph) (keys : list str) :
  Sorted str_le keys -> keys ≡ₚ (map_to_list deps).*1 ->
  keys = alphabetized_dep_names deps.
Proof.
  intros Hs Hp. apply (Sorted_unique str_le); [done | apply alphabetized_sorted |].
  by rewrite alphabetized_perm.
Qed.

(** ** The loop body *)

Lemma filter_copyright_lines (lines : list str) :
  List.filter (fun line => matched (re_match copyright_re line)) lines
  = List.filter (startswith (lit "Copyright ")) lines.
Proof.
  induction lines as [|l lines IH]; [done|]. cbn [List.filter].
  unfold copyright_re at 1. by rewrite re_match_chars, IH.
Qed.

Lemma filter_none (f : str -> bool) (lines : list str) :
  Forall (fun line => f line = false) lines -> List.filter f lines = [].
Proof. induction 1 as [|l lines Hl _ IH]; cbn [List.filter]; [done|]. by rewrite Hl. Qed.

Lemma filter_some (f : str -> bool) (lines : list str) :
  existsb f lines = true -> List.filter f lines <> [].
Proof.
  induction lines as [|l lines IH]; cbn [List.filter existsb]; [done|].
  destruct (f l); [done|]. exact IH.
Qed.

(** Lines 34 to 38 on a license file with a copyright line: the first
    such line, stripped, whatever [dep_copyright] held. *)
Lemma extract_copyright_found (files : gmap str str) (meta : metadata)
    (c : option str) (path content : str) (before : list str) (line : str)
    (after : list str) :
  meta !! lit "licenseFile" = Some (VStr path) -> path <> [] ->
  files !! path = Some content ->
  readlines content = before ++ line :: after ->
  Forall (fun l => startswith (lit "Copyright ") l = false) before ->
  startswith (lit "Copyright ") line = true ->
  extract_copyright files meta c = Ok (Some (strip line)).
Proof.
  intros Hlf Hpath Hfile Hlines Hbefore Hline. unfold extract_copyright.
  rewrite Hlf. cbn [default from_option id]. destruct path as [|x path]; [done|]. cbn [truthy].
  rewrite Hfile, filter_copyright_lines, Hlines, List.filter_app.
  rewrite (filter_none _ _ Hbefore). cbn [app List.filter]. by rewrite Hline.
Qed.

(** Lines 34 to 38 without a copyright line: [dep_copyright] is left
    as it was. *)
Lemma extract_copyright_kept (files : gmap str str) (meta : metadata) (c : option str) :
  lacks_copyright files meta -> extract_copyright files meta c = Ok c.
Proof.
  unfold extract_copyright. intros [->|(path & content & -> & Hfile & Hnone)]; [done|].
  cbn [default from_option id]. destruct path as [|x path]; [done|]. cbn [truthy].
  by rewrite Hfile, filter_copyright_lines, (filter_none _ _ Hnone).
Qed.

Lemma extract_copyright_ok (files : gmap str str) (meta : metadata) (c : option str) :
  license_file_ok files meta = true ->
  exists c', extract_copyright files meta c = Ok c'
    /\ (is_Some c -> is_Some c')
    /\ (has_copyright_line files meta = true -> is_Some c').
Proof.
  unfold license_file_ok, has_copyright_line, extract_copyright.
  destruct (meta !! lit "licenseFile") as [[[|x path]|[|x l]]|];
    cbn [default from_option id truthy]; try done.
  - intros _. exists c. split_and!; [done..|]. by case_match.
  - intros [content Hfile]%bool_decide_eq_true. rewrite Hfile, filter_copyright_lines.
    destruct (List.filter _ (readlines content)) as [|line lines] eqn:Hf.
    + exists c. split_and!; [done..|]. cbn [andb].
      intros He%filter_some. congruence.
    + exists (Some (strip line)). split_and!; eauto.
  - intros _. exists c. by split_and!.
  - intros _. exists c. by split_and!.
Qed.

Lemma origin_ok_get_repo_url (dep_name : str) (meta : metadata) :
  origin_ok meta = true -> exists url, get_repo_url dep_name meta = Ok url.
Proof.
  unfold origin_ok, get_repo_url, repository_of.
  destruct (meta !! lit "repository") as [[u|l]|]; cbn [default from_option id]; [|done|].
  - destruct (startswith (lit "https") u); cbn [negb orb]; [|eauto].
    destruct (re_search https_re u) as [mo|] eqn:Hs; [|done].
    destruct (re_search_https_group u mo Hs) as [g ->]. eauto.
  - intros _. unfold REPO_EXCEPTIONS.
    destruct (decide (dep_name = lit "eyes")) as [->|Hne].
    + rewrite lookup_singleton_eq. vm_compute. eauto.
    + rewrite lookup_singleton_ne by done. vm_compute. eauto.
Qed.

(** What a turn of the loop that raises nothing has done. *)
Lemma format_dep_inv (deps : graph) (files : gmap str str) (c : option str)
    (key : str) (c' : option str) (r : record) :
  format_dep deps files c key = Ok (c', r) ->
  exists meta mo name url cp,
    deps !! key = Some meta
    /\ re_search name_re key = Some mo
    /\ group_1 mo = Some name
    /\ get_repo_url name meta = Ok url
    /\ extract_copyright files meta c = Ok c'
    /\ c' = Some cp
    /\ r = {| Component := name; Origin := url;
              License := default (VStr (lit "LICENSE NOT FOUND")) (meta !! lit "licenses");
              Copyright := cp |}.
Proof.
  unfold format_dep.
  destruct (deps !! key) as [meta|]; [|done].
  destruct (re_search name_re key) as [mo|]; [|done].
  cbn [from_option mbind result_bind].
  destruct (group_1 mo) as [name|] eqn:Hg; [|done].
  cbn [from_option mbind result_bind].
  destruct (get_repo_url name meta) as [url|] eqn:Hurl; [|done].
  cbn [mbind result_bind].
  destruct (extract_copyright files meta c) as [[cp|]|] eqn:Hcp; [|done..].
  cbn [from_option mbind result_bind]. intros [= <- <-].
  by exists meta, mo, name, url, cp.
Qed.

Lemma format_dep_ok (deps : graph) (files : gmap str str) (c : option str) (key : str) :
  dep_ok deps files key = true ->
  is_Some c
  \/ (exists meta, deps !! key = Some meta /\ has_copyright_line files meta = true) ->
  exists c' r, format_dep deps files c key = Ok (Some c', r).
Proof.
  unfold dep_ok, format_dep. destruct (deps !! key) as [meta|]; [|done].
  intros [[Hname Horigin]%andb_true_iff Hfile]%andb_true_iff Hc.
  destruct (re_search name_re key) as [mo|] eqn:Hs;
    [|apply re_search_name_None in Hs; congruence].
  destruct (re_search_name_Some key mo Hs) as (name & Hg & _).
  cbn [from_option mbind result_bind]. rewrite Hg.
  cbn [from_option mbind result_bind].
  destruct (origin_ok_get_repo_url name meta Horigin) as [url ->].
  cbn [mbind result_bind].
  destruct (extract_copyright_ok files meta c Hfile) as (c' & -> & Hkeep & Hfound).
  assert (is_Some c') as [cp ->].
  { destruct Hc as [Hc|(meta' & [= <-] & Hcp)]; auto. }
  cbn [from_option mbind result_bind]. eauto.
Qed.

(** ** The loop and the script *)

Lemma loop_rows (deps : graph) (files : gmap str str) (keys : list str)
    (c : option str) (acc recs : list record) :
  loop deps files keys c acc = Ok recs ->
  exists new, recs = acc ++ new /\ Forall2 (made_for deps files) keys new.
Proof.
  revert c acc. induction keys as [|key keys IH]; intros c acc; cbn [loop].
  - intros [= <-]. exists []. by rewrite app_nil_r.
  - destruct (format_dep deps files c key) as [[c' r]|] eqn:Hf; [|done].
    intros (new & -> & Hnew)%IH. exists (r :: new). split.
    + by rewrite <- app_assoc.
    + constructor; [by exists c, c' | done].
Qed.

(** The loop raises as soon as a turn does, and then nothing is left of
    the turns before. *)
Lemma loop_raises (deps : graph) (files : gmap str str) (keys : list str)
    (c : option str) (acc : list record) (key : str) :
  key ∈ keys ->
  (forall c0, exists e, format_dep deps files c0 key = Raise e) ->
  exists e, loop deps files keys c acc = Raise e.
Proof.
  intros Hin Hkey. revert c acc.
  induction keys as [|k keys IH]; intros c acc; [by apply not_elem_of_nil in Hin|].
  cbn [loop]. apply elem_of_cons in Hin as [<-|Hin].
  - destruct (Hkey c) as [e ->]. eauto.
  - destruct (format_dep deps files c k) as [[c' r]|e]; [by apply IH | eauto].
Qed.

Lemma loop_ok (deps : graph) (files : gmap str str) (keys : list str)
    (c : str) (acc : list record) :
  Forall (fun key => dep_ok deps files key = true) keys ->
  exists recs, loop deps files keys (Some c) acc = Ok recs.
Proof.
  intros Hkeys. revert c acc.
  induction Hkeys as [|key keys Hkey _ IH]; intros c acc; cbn [loop]; [eauto|].
  destruct (format_dep_ok deps files (Some c) key Hkey) as (c' & r & ->); eauto.
Qed.

Lemma main_Ok (sc : scanner_run) (w w' : world) :
  main sc w = (Ok (), w') ->
  exists deps recs,
    returncode sc = 0%Z
    /\ parsed sc = Some deps
    /\ csv_writable w = true
    /\ loop deps (files w) (alphabetized_dep_names deps) None [] = Ok recs
    /\ w' = {| files := files w; csv_writable := true;
               csv_file := Some {| fieldnames := header; rows := recs |} |}.
Proof.
  unfold main. destruct (Z.eqb_spec (returncode sc) 0) as [Hrc|]; [|done].
  cbn [negb]. destruct (parsed sc) as [deps|]; [|done].
  destruct (loop deps _ _ None []) as [recs|] eqn:Hloop; [|done].
  destruct (csv_writable w); [|done]. intros [= <-]. by exists deps, recs.
Qed.

(** The rows of a report that was written are the records of the keys
    in order, one for one. *)
Lemma main_rows (sc : scanner_run) (w w' : world) (deps : graph) (doc : csv_document) :
  main sc w = (Ok (), w') -> parsed sc = Some deps -> csv_file w' = Some doc ->
  Forall2 (made_for deps (files w)) (alphabetized_dep_names deps) (rows doc).
Proof.
  intros (deps' & recs & _ & Hp & _ & Hloop & ->)%main_Ok Hdeps [= <-].
  assert (deps' = deps) as -> by congruence.
  apply loop_rows in Hloop as (new & -> & Hnew). done.
Qed.

Lemma format_dep_unbound (deps : graph) (files : gmap str str) (key : str)
    (meta : metadata) :
  deps !! key = Some meta -> lacks_copyright files meta ->
  (exists e, format_dep deps files None key = Raise e)
  /\ (forall mo name url,
        re_search name_re key = Some mo -> group_1 mo = Some name ->
        get_repo_url name meta = Ok url ->
        format_dep deps files None key = Raise NameError).
Proof.
  intros Hmeta Hlacks. unfold format_dep. rewrite Hmeta.
  cbn [from_option mbind result_bind]. split.
  - destruct (re_search name_re key) as [mo|]; [|by eauto].
    cbn [from_option mbind result_bind].
    destruct (group_1 mo) as [name|]; [|by eauto].
    cbn [from_option mbind result_bind].
    destruct (get_repo_url name meta) as [url|]; [|by eauto].
    cbn [mbind result_bind]. rewrite (extract_copyright_kept _ _ _ Hlacks). eauto.
  - intros mo name url -> Hg Hurl. cbn [from_option mbind result_bind].
    rewrite Hg. cbn [from_option mbind result_bind]. rewrite Hurl.
    cbn [mbind result_bind]. by rewrite (extract_copyright_kept _ _ _ Hlacks).
Qed.

Lemma loop_well_formed (deps : graph) (files : gmap str str) :
  well_formed files deps ->
  exists recs, loop deps files (alphabetized_dep_names deps) None [] = Ok recs.
Proof.
  unfold well_formed. destruct (alphabetized_dep_names deps) as [|key keys].
  - intros _. by exists [].
  - intros [Hkeys Hfirst]. apply Forall_cons in Hkeys as [Hkey Hkeys]. cbn [loop].
    destruct (format_dep_ok deps files None key Hkey) as (c' & r & ->); [by right|].
    by apply loop_ok.
Qed.

(** ** The copyright of a row is never empty

    [dep_copyright] is only ever bound to a stripped line that starts
    with the text of line 36, and line 45 raises while it is unbound:
    no row of a report has an empty Copyright, whether its key has a
    license file or not. *)

Lemma drop_while_snoc (p : char -> bool) (s : str) (c : char) :
  p c = false -> drop_while p (s ++ [c]) <> [].
Proof.
  intros Hc. induction s as [|d s IH]; cbn [app drop_while].
  - by rewrite Hc.
  - by destruct (p d).
Qed.

Lemma strip_copyright_nonempty (line : str) :
  startswith (lit "Copyright ") line = true -> strip line <> [].
Proof.
  intros H. rewrite (strip_copyright_line line H). apply startswith_inv in H.
  rewrite H. unfold rstrip. change (lit "Copyright " ++ ?t) with (67 :: (lit "opyright " ++ t)).
  rewrite reverse_cons. intros Hnil.
  apply (f_equal reverse) in Hnil. rewrite reverse_involutive in Hnil.
  by apply drop_while_snoc in Hnil.
Qed.

Lemma extract_copyright_nonempty (files : gmap str str) (meta : metadata)
    (c c' : option str) :
  (forall t, c = Some t -> t <> []) ->
  extract_copyright files meta c = Ok c' ->
  forall t, c' = Some t -> t <> [].
Proof.
  intros Hc. unfold extract_copyright.
  destruct (truthy _); [|by intros [= <-]].
  destruct (default _ _) as [path|]; [|done].
  destruct (files !! path) as [content|]; [|done].
  rewrite filter_copyright_lines.
  destruct (List.filter _ (readlines content)) as [|line lines] eqn:Hf; [by intros [= <-]|].
  intros [= <-] t [= <-]. apply strip_copyright_nonempty.
  assert (In line (List.filter (startswith (lit "Copyright ")) (readlines content))) as Hin
    by (rewrite Hf; by left).
  by apply List.filter_In in Hin as [_ Hin].
Qed.

Lemma loop_copyright_nonempty (deps : graph) (files : gmap str str) (keys : list str)
    (c : option str) (acc recs : list record) :
  (forall t, c = Some t -> t <> []) ->
  Forall (fun r => Copyright r <> []) acc ->
  loop deps files keys c acc = Ok recs ->
  Forall (fun r => Copyright r <> []) recs.
Proof.
  revert c acc. induction keys as [|key keys IH]; intros c acc Hc Hacc; cbn [loop].
  - by intros [= <-].
  - destruct (format_dep deps files c key) as [[c' r]|] eqn:Hf; [|done].
    apply format_dep_inv in Hf
      as (meta & mo & name & url & cp & _ & _ & _ & _ & Hcp & -> & ->).
    pose proof (extract_copyright_nonempty files meta c (Some cp) Hc Hcp) as Hcp'.
    apply IH; [done|]. apply Forall_app. split; [done|].
    constructor; [|done]. cbn [Copyright]. by apply Hcp'.
Qed.

Lemma rows_copyright_nonempty (sc : scanner_run) (w w' : world) (doc : csv_document) :
  main sc w = (Ok (), w') -> csv_file w' = Some doc ->
  Forall (fun r => Copyright r <> []) (rows doc).
Proof.
  intros (deps & recs & _ & _ & _ & Hloop & ->)%main_Ok [= <-]. cbn [rows].
  by apply (loop_copyright_nonempty _ _ _ None [] recs) in Hloop.
Qed.

(** ** The claims *)

(** C1 (evaluated on [two_deps]): the record of eyes\@0.1.8, whose
    metadata names no license file, carries the copyright line read for
    abbrev\@1.1.1 in the turn before: [dep_copyright] is never reset. *)
Theorem copyright_carried_over :
  main (scanned two_deps) sample_world = (Ok (), written [abbrev_record; eyes_record])
  /\ alphabetized_dep_names two_deps = [lit "abbrev@1.1.1"; lit "eyes@0.1.8"]
  /\ (exists meta, two_deps !! lit "eyes@0.1.8" = Some meta
                   /\ meta !! lit "licenseFile" = None)
  /\ Copyright eyes_record = abbrev_copyright
  /\ abbrev_copyright <> [].
Proof.
  split_and!; [by vm_compute..| |done|done].
  eexists. split; by vm_compute.
Qed.

(** C2, as amended: when the text of a key before its first [@] is not
    empty and is made of word characters and hyphens only, the
    Component of the record of that key is that text. *)
Theorem component_of_simple_key (sc : scanner_run) (w w' : world) (deps : graph)
    (doc : csv_document) (i : nat) (key : str) (r : record) :
  main sc w = (Ok (), w') -> parsed sc = Some deps -> csv_file w' = Some doc ->
  alphabetized_dep_names deps !! i = Some key -> rows doc !! i = Some r ->
  before_first_at key <> [] ->
  Forall (fun c => name_char c = true) (before_first_at key) ->
  Component r = before_first_at key.
Proof.
  intros Hmain Hdeps Hdoc Hkey Hr Hne Hall.
  pose proof (main_rows sc w w' deps doc Hmain Hdeps Hdoc) as Hrows.
  destruct (Forall2_lookup_lr _ _ _ _ _ _ Hrows Hkey Hr) as (c & c' & Hf).
  apply format_dep_inv in Hf
    as (meta & mo & name & url & cp & _ & Hs & Hg & _ & _ & _ & ->).
  cbn [Component]. pose proof (re_search_name_simple key mo Hs Hne Hall). congruence.
Qed.

(** C3 (evaluated on [typo_meta]): a repository value that starts with
    the letters https but holds no https:// makes [get_repo_url] raise. *)
Theorem get_repo_url_raises :
  get_repo_url (lit "foo") typo_meta = Raise AttributeError.
Proof. by vm_compute. Qed.

(** C4 (evaluated on [mirror_meta]): a repository value that does not
    begin with https:// is not returned unchanged when it begins with
    the letters https: [get_repo_url] raises. *)
Theorem get_repo_url_guard_slip :
  repository_of (lit "foo") mirror_meta = VStr (lit "https-mirror.example.org/x/foo")
  /\ startswith (lit "https://") (lit "https-mirror.example.org/x/foo") = false
  /\ get_repo_url (lit "foo") mirror_meta = Raise AttributeError.
Proof. split_and!; by vm_compute. Qed.


(** C6: when the metadata of a key names a license file that can be
    read and has a line starting with the text of line 36, the
    Copyright of the record of that key is the first such line of the
    file without the white space at its end. *)
Theorem copyright_is_first_line (sc : scanner_run) (w w' : world) (deps : graph)
    (doc : csv_document) (i : nat) (key : str) (r : record) (meta : metadata)
    (path content : str) (before : list str) (line : str) (after : list str) :
  main sc w = (Ok (), w') -> parsed sc = Some deps -> csv_file w' = Some doc ->
  alphabetized_dep_names deps !! i = Some key -> rows doc !! i = Some r ->
  deps !! key = Some meta ->
  meta !! lit "licenseFile" = Some (VStr path) -> path <> [] ->
  files w !! path = Some content ->
  readlines content = before ++ line :: after ->
  Forall (fun l => startswith (lit "Copyright ") l = false) before ->
  startswith (lit "Copyright ") line = true ->
  trimmed_right line (Copyright r).
Proof.
  intros Hmain Hdeps Hdoc Hkey Hr Hmeta Hlf Hpath Hfile Hlines Hbefore Hline.
  pose proof (main_rows sc w w' deps doc Hmain Hdeps Hdoc) as Hrows.
  destruct (Forall2_lookup_lr _ _ _ _ _ _ Hrows Hkey Hr) as (c & c' & Hf).
  apply format_dep_inv in Hf
    as (meta' & mo & name & url & cp & Hmeta' & _ & _ & _ & Hcp & -> & ->).
  assert (meta' = meta) as -> by congruence.
  rewrite (extract_copyright_found _ _ c _ _ _ _ _ Hlf Hpath Hfile Hlines Hbefore Hline)
    in Hcp.
  injection Hcp as <-. cbn [Copyright].
  rewrite (strip_copyright_line line Hline). apply rstrip_trimmed.
Qed.

(** C7 (evaluated on the two scenarios of the description): each graph
    has one key, whose metadata names no license file; the script
    raises NameError at line 45 in the first turn of the loop and
    writes no report, where a report of one row is due. *)
Theorem no_report_without_license_file :
  size foo_deps = 1%nat
  /\ main (scanned foo_deps) sample_world = (Raise NameError, sample_world)
  /\ size eyes_deps = 1%nat
  /\ main (scanned eyes_deps) sample_world = (Raise NameError, sample_world)
  /\ csv_file sample_world = None.
Proof. split_and!; by vm_compute. Qed.

(** C8: when the scanner exits with a non-zero status, or its output
    is not valid JSON, the script raises and the files are as they were:
    no report is created and a report that was there is not touched. *)
Theorem scanner_failure_writes_nothing (sc : scanner_run) (w : world) :
  returncode sc <> 0%Z \/ parsed sc = None ->
  main sc w
  = (Raise (if decide (returncode sc = 0%Z) then JSONDecodeError else CalledProcessError), w)
  /\ csv_file (main sc w).2 = csv_file w.
Proof.
  intros H. unfold main.
  destruct (Z.eqb_spec (returncode sc) 0) as [Hrc|Hrc]; cbn [negb].
  - destruct H as [H|H]; [done|]. rewrite H. by rewrite decide_True.
  - by rewrite decide_False.
Qed.

(** C9, as amended: when the first key in order has no license file,
    or one without a copyright line, the script raises and writes
    nothing; what it raises is NameError when the name of that key and
    its origin could be worked out (else one of these steps has raised
    before line 45 is reached). *)
Theorem unbound_copyright_aborts (sc : scanner_run) (w : world) (deps : graph)
    (key : str) (meta : metadata) :
  parsed sc = Some deps ->
  head (alphabetized_dep_names deps) = Some key ->
  deps !! key = Some meta ->
  lacks_copyright (files w) meta ->
  (exists e, main sc w = (Raise e, w))
  /\ (returncode sc = 0%Z ->
      forall mo name url,
        re_search name_re key = Some mo -> group_1 mo = Some name ->
        get_repo_url name meta = Ok url ->
        main sc w = (Raise NameError, w)).
Proof.
  intros Hdeps Hkey Hmeta Hlacks. unfold main. rewrite Hdeps.
  destruct (alphabetized_dep_names deps) as [|key' keys]; [done|].
  injection Hkey as ->. cbn [loop].
  destruct (format_dep_unbound deps (files w) key meta Hmeta Hlacks) as [[e He] Hname].
  split.
  - destruct (negb _); [by eauto|]. rewrite He. eauto.
  - intros -> mo name url Hs Hg Hurl. cbn [Z.eqb negb].
    by rewrite (Hname mo name url Hs Hg Hurl).
Qed.

(** C10: a key of the graph in which no [@] stands right after a word
    character or a hyphen (a key without [@] among them) has no name:
    [re.search] returns None for it, and the script raises and writes
    nothing. *)
Theorem key_without_name_aborts (sc : scanner_run) (w : world) (deps : graph)
    (key : str) :
  parsed sc = Some deps -> is_Some (deps !! key) -> no_name_before_any_at key ->
  re_search name_re key = None
  /\ (forall c, format_dep deps (files w) c key = Raise AttributeError)
  /\ exists e, main sc w = (Raise e, w).
Proof.
  intros Hdeps [meta Hmeta] Hkey.
  apply name_before_at_spec, re_search_name_None in Hkey.
  assert (forall c, format_dep deps (files w) c key = Raise AttributeError) as Hf.
  { intros c. unfold format_dep. by rewrite Hmeta, Hkey. }
  split_and!; [done..|]. unfold main. rewrite Hdeps.
  destruct (negb _); [by eauto|].
  destruct (loop_raises deps (files w) (alphabetized_dep_names deps) None [] key)
    as [e ->]; [|by eauto|by eauto].
  apply alphabetized_elem_of. eauto.
Qed.

(** ** Further properties of the script *)

(** *** get_repo_url *)

Lemma re_search_https_None (u : str) :
  re_search https_re u = None <-> ~ occurs_in (lit "https://") u.
Proof.
  unfold occurs_in. induction u as [|c s IH]; cbn [re_search]; rewrite re_match_https.
  - split; [|done]. intros _ (pre & post & H).
    apply (f_equal length) in H. rewrite !length_app in H. cbn in H. lia.
  - destruct (startswith (lit "https://") (c :: s)) eqn:Hp.
    + split; [done|]. intros H. exfalso. apply H.
      exists [], (drop (length (lit "https://")) (c :: s)). by apply startswith_inv.
    + rewrite IH. split.
      * intros H (pre & post & Heq). destruct pre as [|d pre].
        -- cbn [app] in Heq. rewrite Heq, startswith_app in Hp. done.
        -- injection Heq as -> ->. apply H. eauto.
      * intros H (pre & post & ->). apply H. by exists (c :: pre), post.
Qed.

(** X1: on metadata whose repository field is a text, [get_repo_url]
    raises exactly when the text starts with the letters https and
    https:// does not occur in it, and what it raises is
    AttributeError; on metadata without a repository field it does not
    raise. *)
Theorem get_repo_url_text_raises_iff (dep_name : str) (dep_meta : metadata) (e : exn) :
  (dep_meta !! lit "repository" = None -> get_repo_url dep_name dep_meta <> Raise e)
  /\ (forall u, dep_meta !! lit "repository" = Some (VStr u) ->
       (get_repo_url dep_name dep_meta = Raise e
        <-> e = AttributeError
            /\ startswith (lit "https") u = true
            /\ ~ occurs_in (lit "https://") u)).
Proof.
  split.
  - intros Hrepo. destruct (origin_ok_get_repo_url dep_name dep_meta) as [url ->]; [|done].
    unfold origin_ok. by rewrite Hrepo.
  - intros u Hrepo. unfold get_repo_url, repository_of. rewrite Hrepo.
    cbn [default from_option id]. destruct (startswith (lit "https") u).
    + destruct (re_search https_re u) as [mo|] eqn:Hs.
      * destruct (re_search_https_group u mo Hs) as [g ->].
        split; [done|]. intros (_ & _ & Hno). apply re_search_https_None in Hno. congruence.
      * apply re_search_https_None in Hs. split; [by intros [= <-]|]. by intros [-> _].
    + split; [done|]. by intros (_ & ? & _).
Qed.

(** X2: a repository field that begins with https:// is returned
    without these eight characters, and without what follows its first
    line feed if it has one. *)
Theorem get_repo_url_strips_scheme (dep_name : str) (dep_meta : metadata) (rest : str) :
  dep_meta !! lit "repository" = Some (VStr (lit "https://" ++ rest)) ->
  get_repo_url dep_name dep_meta = Ok (take_while (fun c => negb (c =? 10)) rest)
  /\ (Forall (fun c => c <> 10) rest -> get_repo_url dep_name dep_meta = Ok rest).
Proof.
  intros Hrepo.
  assert (repository_of dep_name dep_meta = VStr (lit "https://" ++ rest)) as H
    by (unfold repository_of; by rewrite Hrepo).
  split; [exact (get_repo_url_https _ _ _ H) | by apply get_repo_url_https_line].
Qed.

(** *** The rows of a report *)

Lemma main_row (sc : scanner_run) (w w' : world) (deps : graph) (doc : csv_document)
    (i : nat) (key : str) (r : record) :
  main sc w = (Ok (), w') -> parsed sc = Some deps -> csv_file w' = Some doc ->
  alphabetized_dep_names deps !! i = Some key -> rows doc !! i = Some r ->
  made_for deps (files w) key r.
Proof.
  intros Hmain Hdeps Hdoc Hkey Hr.
  pose proof (main_rows sc w w' deps doc Hmain Hdeps Hdoc) as Hrows.
  exact (Forall2_lookup_lr _ _ _ _ _ _ Hrows Hkey Hr).
Qed.

(** X3: the License of a row is the licenses field of the metadata of
    its key as the scanner gave it, a text or a list, and the text
    LICENSE NOT FOUND when there is no such field. *)
Theorem license_passed_through (sc : scanner_run) (w w' : world) (deps : graph)
    (doc : csv_document) (i : nat) (key : str) (r : record) (meta : metadata) :
  main sc w = (Ok (), w') -> parsed sc = Some deps -> csv_file w' = Some doc ->
  alphabetized_dep_names deps !! i = Some key -> rows doc !! i = Some r ->
  deps !! key = Some meta ->
  License r = match meta !! lit "licenses" with
              | Some v => v
              | None => VStr (lit "LICENSE NOT FOUND")
              end.
Proof.
  intros Hmain Hdeps Hdoc Hkey Hr Hmeta.
  destruct (main_row sc w w' deps doc i key r Hmain Hdeps Hdoc Hkey Hr) as (c & c' & Hf).
  apply format_dep_inv in Hf
    as (meta' & mo & name & url & cp & Hmeta' & _ & _ & _ & _ & _ & ->).
  assert (meta' = meta) as -> by congruence. cbn [License].
  by destruct (meta !! lit "licenses").
Qed.

(** X4: a row whose metadata has no repository field has the Origin
    NO REPO, unless its Component (the name found in the key, not the
    key) is eyes, when the Origin is github.com/cloudhead/eyes.js. *)
Theorem origin_without_repository (sc : scanner_run) (w w' : world) (deps : graph)
    (doc : csv_document) (i : nat) (key : str) (r : record) (meta : metadata) :
  main sc w = (Ok (), w') -> parsed sc = Some deps -> csv_file w' = Some doc ->
  alphabetized_dep_names deps !! i = Some key -> rows doc !! i = Some r ->
  deps !! key = Some meta -> meta !! lit "repository" = None ->
  Origin r = if decide (Component r = lit "eyes")
             then lit "github.com/cloudhead/eyes.js" else lit "NO REPO".
Proof.
  intros Hmain Hdeps Hdoc Hkey Hr Hmeta Hrepo.
  destruct (main_row sc w w' deps doc i key r Hmain Hdeps Hdoc Hkey Hr) as (c & c' & Hf).
  apply format_dep_inv in Hf
    as (meta' & mo & name & url & cp & Hmeta' & _ & _ & Hurl & _ & _ & ->).
  assert (meta' = meta) as -> by congruence. cbn [Origin Component].
  unfold get_repo_url, repository_of in Hurl. rewrite Hrepo in Hurl.
  cbn [default from_option id] in Hurl. unfold REPO_EXCEPTIONS in Hurl.
  destruct (decide (name = lit "eyes")) as [->|Hne].
  - rewrite lookup_singleton_eq in Hurl. vm_compute in Hurl.
    injection Hurl as <-. by vm_compute.
  - rewrite lookup_singleton_ne in Hurl by done. vm_compute in Hurl.
    injection Hurl as <-. by vm_compute.
Qed.

(** X5: the Component of a row is never empty and is made of word
    characters and hyphens only (no [@], no slash, no dot, no space). *)
Theorem component_is_a_name (sc : scanner_run) (w w' : world) (doc : csv_document) :
  main sc w = (Ok (), w') -> csv_file w' = Some doc ->
  Forall (fun r => Component r <> []
                   /\ Forall (fun c => name_char c = true /\ c <> chr "@") (Component r))
         (rows doc).
Proof.
  intros Hmain Hdoc.
  destruct (main_Ok sc w w' Hmain) as (deps & recs & _ & Hdeps & _ & _ & _).
  pose proof (main_rows sc w w' deps doc Hmain Hdeps Hdoc) as Hrows.
  apply Forall_lookup. intros i r Hr.
  destruct (Forall2_lookup_r _ _ _ _ _ Hrows Hr) as (key & _ & c & c' & Hf).
  apply format_dep_inv in Hf
    as (meta & mo & name & url & cp & _ & Hs & Hg & _ & _ & _ & ->).
  destruct (re_search_name_Some key mo Hs) as (name' & Hg' & pre & post & _ & Hne & Hall & _).
  assert (name' = name) as -> by congruence. cbn [Component]. split; [done|].
  eapply Forall_impl; [exact Hall|]. intros d Hd. split; [done|].
  intros ->. by rewrite name_char_at in Hd.
Qed.

(** *** The Copyright of a row *)

Lemma drop_while_app_stop' (p : char -> bool) (a b : str) (c : char) :
  p c = false -> drop_while p (a ++ c :: b) = drop_while p a ++ c :: b.
Proof.
  intros Hc. induction a as [|d a IH]; cbn [app drop_while].
  - by rewrite Hc.
  - by destruct (p d).
Qed.

(** White space is only taken from the end: what stands before a
    character that is not white space stays. *)
Lemma rstrip_app (x y : str) (c : char) :
  is_space c = false -> rstrip (x ++ c :: y) = x ++ c :: rstrip y.
Proof.
  intros Hc. unfold rstrip.
  rewrite reverse_app, reverse_cons, <- app_assoc. cbn [app].
  rewrite drop_while_app_stop' by done.
  rewrite reverse_app, reverse_cons, reverse_involutive, <- app_assoc. done.
Qed.

Lemma strip_copyright_prefix (line : str) :
  startswith (lit "Copyright ") line = true ->
  startswith (lit "Copyright") (strip line) = true.
Proof.
  intros H. rewrite (strip_copyright_line line H). apply startswith_inv in H.
  rewrite H.
  change (lit "Copyright " ++ ?t) with (lit "Copyrigh" ++ 116 :: (32 :: t)).
  rewrite rstrip_app by done.
  change (lit "Copyrigh" ++ 116 :: ?t) with (lit "Copyright" ++ t).
  apply startswith_app.
Qed.

Lemma extract_copyright_prefix (files : gmap str str) (meta : metadata)
    (c c' : option str) :
  (forall t, c = Some t -> startswith (lit "Copyright") t = true) ->
  extract_copyright files meta c = Ok c' ->
  forall t, c' = Some t -> startswith (lit "Copyright") t = true.
Proof.
  intros Hc. unfold extract_copyright.
  destruct (truthy _); [|by intros [= <-]].
  destruct (default _ _) as [path|]; [|done].
  destruct (files !! path) as [content|]; [|done].
  rewrite filter_copyright_lines.
  destruct (List.filter _ (readlines content)) as [|line lines] eqn:Hf; [by intros [= <-]|].
  intros [= <-] t [= <-]. apply strip_copyright_prefix.
  assert (In line (List.filter (startswith (lit "Copyright ")) (readlines content))) as Hin
    by (rewrite Hf; by left).
  by apply List.filter_In in Hin as [_ Hin].
Qed.

Lemma loop_copyright_prefix (deps : graph) (files : gmap str str) (keys : list str)
    (c : option str) (acc recs : list record) :
  (forall t, c = Some t -> startswith (lit "Copyright") t = true) ->
  Forall (fun r => startswith (lit "Copyright") (Copyright r) = true) acc ->
  loop deps files keys c acc = Ok recs ->
  Forall (fun r => startswith (lit "Copyright") (Copyright r) = true) recs.
Proof.
  revert c acc. induction keys as [|key keys IH]; intros c acc Hc Hacc; cbn [loop].
  - by intros [= <-].
  - destruct (format_dep deps files c key) as [[c' r]|] eqn:Hf; [|done].
    apply format_dep_inv in Hf
      as (meta & mo & name & url & cp & _ & _ & _ & _ & Hcp & -> & ->).
    pose proof (extract_copyright_prefix files meta c (Some cp) Hc Hcp) as Hcp'.
    apply IH; [done|]. apply Forall_app. split; [done|].
    constructor; [|done]. cbn [Copyright]. by apply Hcp'.
Qed.

(** X6: the Copyright of every row of a report starts with the word
    Copyright, whether the key of the row has a license file or not:
    the script never writes a row with an empty Copyright. *)
Theorem copyright_always_present (sc : scanner_run) (w w' : world) (doc : csv_document) :
  main sc w = (Ok (), w') -> csv_file w' = Some doc ->
  Forall (fun r => startswith (lit "Copyright") (Copyright r) = true) (rows doc).
Proof.
  intros (deps & recs & _ & _ & _ & Hloop & ->)%main_Ok [= <-]. cbn [rows].
  by apply (loop_copyright_prefix _ _ _ None [] recs) in Hloop.
Qed.

(** Each turn of the loop starts with the Copyright of the row made
    in the turn before, and ends with its own. *)
Lemma loop_turns (deps : graph) (files : gmap str str) (keys : list str)
    (c : option str) (acc recs : list record) :
  loop deps files keys c acc = Ok recs ->
  exists new, recs = acc ++ new
    /\ forall i key r, keys !! i = Some key -> new !! i = Some r ->
         format_dep deps files (carried c new i) key = Ok (Some (Copyright r), r).
Proof.
  revert c acc. induction keys as [|key keys IH]; intros c acc; cbn [loop].
  - intros [= <-]. exists []. by rewrite app_nil_r.
  - destruct (format_dep deps files c key) as [[c' r]|] eqn:Hf; [|done].
    intros (new & -> & Hnew)%IH. exists (r :: new). split; [by rewrite <- app_assoc|].
    pose proof Hf as Hinv. apply format_dep_inv in Hinv
      as (meta & mo & name & url & cp & _ & _ & _ & _ & _ & -> & Hr).
    assert (Copyright r = cp) as Hcp by (by rewrite Hr).
    intros [|i] key' r' Hkey Hr'; cbn in Hkey, Hr'.
    + injection Hkey as <-. injection Hr' as <-. cbn [carried]. by rewrite Hcp.
    + specialize (Hnew i key' r' Hkey Hr').
      replace (carried c (r :: new) (S i)) with (carried (Some cp) new i); [done|].
      destruct i as [|i]; cbn [carried]; [by rewrite <- Hcp|done].
Qed.

(** X7: a row whose key has no license file, or a license file without
    a copyright line, repeats the Copyright of the row before it. *)
Theorem copyright_repeats (sc : scanner_run) (w w' : world) (deps : graph)
    (doc : csv_document) (i : nat) (key : str) (meta : metadata) (prev r : record) :
  main sc w = (Ok (), w') -> parsed sc = Some deps -> csv_file w' = Some doc ->
  alphabetized_dep_names deps !! S i = Some key -> deps !! key = Some meta ->
  lacks_copyright (files w) meta ->
  rows doc !! i = Some prev -> rows doc !! S i = Some r ->
  Copyright r = Copyright prev.
Proof.
  intros (deps' & recs & _ & Hp & _ & Hloop & ->)%main_Ok Hdeps [= <-] Hkey Hmeta Hlacks.
  assert (deps' = deps) as -> by congruence. cbn [rows]. intros Hprev Hr.
  apply loop_turns in Hloop as (new & -> & Hturn). cbn [app] in *.
  specialize (Hturn (S i) key r Hkey Hr). cbn [carried] in Hturn.
  rewrite Hprev in Hturn. cbn [fmap option_fmap option_map] in Hturn.
  apply format_dep_inv in Hturn
    as (meta' & mo & name & url & cp & Hmeta' & _ & _ & _ & Hcp & _ & _).
  assert (meta' = meta) as -> by congruence.
  rewrite (extract_copyright_kept _ _ _ Hlacks) in Hcp. congruence.
Qed.

(** *** Runs that fail, and the runs that do not *)

(** X8: a key whose license file cannot be opened makes the script
    raise, whatever the other keys are, and nothing is written. *)
Theorem unreadable_license_aborts (sc : scanner_run) (w : world) (deps : graph)
    (key : str) (meta : metadata) (path : str) :
  parsed sc = Some deps -> deps !! key = Some meta ->
  meta !! lit "licenseFile" = Some (VStr path) -> path <> [] ->
  files w !! path = None ->
  exists e, main sc w = (Raise e, w).
Proof.
  intros Hdeps Hmeta Hlf Hpath Hfile.
  assert (forall c, exists e, format_dep deps (files w) c key = Raise e) as Hf.
  { intros c. unfold format_dep. rewrite Hmeta. cbn [from_option mbind result_bind].
    destruct (re_search name_re key) as [mo|]; [|by eauto].
    cbn [from_option mbind result_bind].
    destruct (group_1 mo) as [name|]; [|by eauto].
    cbn [from_option mbind result_bind].
    destruct (get_repo_url name meta) as [url|]; [|by eauto].
    cbn [mbind result_bind]. unfold extract_copyright. rewrite Hlf.
    cbn [default from_option id]. destruct path as [|x path]; [done|].
    cbn [truthy]. rewrite Hfile. eauto. }
  unfold main. rewrite Hdeps. destruct (negb _); [by eauto|].
  destruct (loop_raises deps (files w) (alphabetized_dep_names deps) None [] key)
    as [e ->]; [|done|by eauto].
  apply alphabetized_elem_of. eauto.
Qed.

(** X9: on an empty graph the script writes a report of no rows, only
    the header Component, Origin, License, Copyright. *)
Theorem empty_graph_report (sc : scanner_run) (w : world) :
  returncode sc = 0%Z -> parsed sc = Some ∅ -> csv_writable w = true ->
  main sc w
  = (Ok (), {| files := files w; csv_writable := true;
               csv_file := Some {| fieldnames := [lit "Component"; lit "Origin";
                                                  lit "License"; lit "Copyright"];
                                   rows := [] |} |}).
Proof.
  intros Hrc Hdeps Hw. unfold main. rewrite Hrc, Hdeps, Hw. cbn [Z.eqb negb].
  unfold alphabetized_dep_names. by rewrite map_to_list_empty.
Qed.

Lemma get_repo_url_Ok_origin (dep_name : str) (meta : metadata) (url : str) :
  get_repo_url dep_name meta = Ok url -> origin_ok meta = true.
Proof.
  unfold get_repo_url, repository_of, origin_ok.
  destruct (meta !! lit "repository") as [[u|l]|]; cbn [default from_option id]; [|done..].
  destruct (startswith (lit "https") u); cbn [negb orb]; [|done].
  by destruct (re_search https_re u).
Qed.

Lemma extract_copyright_Ok_file (files : gmap str str) (meta : metadata)
    (c c' : option str) :
  extract_copyright files meta c = Ok c' -> license_file_ok files meta = true.
Proof.
  unfold extract_copyright, license_file_ok.
  destruct (meta !! lit "licenseFile") as [[[|x path]|[|x l]]|];
    cbn [default from_option id truthy]; try done.
  intros H. apply bool_decide_eq_true.
  case_match eqn:Hfile; [|done]. by eexists.
Qed.

Lemma filter_cons_existsb (f : str -> bool) (lines : list str) (l : str) (ls : list str) :
  List.filter f lines = l :: ls -> existsb f lines = true.
Proof.
  induction lines as [|x lines IH]; cbn [List.filter existsb]; [done|].
  destruct (f x); [done | exact IH].
Qed.

Lemma extract_copyright_bound (files : gmap str str) (meta : metadata) (cp : str) :
  extract_copyright files meta None = Ok (Some cp) -> has_copyright_line files meta = true.
Proof.
  unfold extract_copyright, has_copyright_line.
  destruct (meta !! lit "licenseFile") as [[[|x path]|[|x l]]|];
    cbn [default from_option id truthy]; try done.
  case_match eqn:Hfile; [|done].
  rewrite filter_copyright_lines. cbn [andb].
  case_match eqn:Hf; [done|].
  intros _. by apply filter_cons_existsb in Hf.
Qed.

Lemma format_dep_Ok_dep_ok (deps : graph) (files : gmap str str) (c c' : option str)
    (key : str) (r : record) :
  format_dep deps files c key = Ok (c', r) -> dep_ok deps files key = true.
Proof.
  intros (meta & mo & name & url & cp & Hmeta & Hs & _ & Hurl & Hcp & _ & _)%format_dep_inv.
  unfold dep_ok. rewrite Hmeta.
  rewrite (get_repo_url_Ok_origin _ _ _ Hurl), (extract_copyright_Ok_file _ _ _ _ Hcp).
  destruct (name_before_at key) eqn:Hn; [done|].
  apply re_search_name_None in Hn. congruence.
Qed.

Lemma loop_Ok_dep_ok (deps : graph) (files : gmap str str) (keys : list str)
    (c : option str) (acc recs : list record) :
  loop deps files keys c acc = Ok recs ->
  Forall (fun key => dep_ok deps files key = true) keys.
Proof.
  revert c acc. induction keys as [|key keys IH]; intros c acc; cbn [loop]; [done|].
  destruct (format_dep deps files c key) as [[c' r]|] eqn:Hf; [|done].
  intros H. constructor; [by eapply format_dep_Ok_dep_ok | by eapply IH].
Qed.

(** X10: the script writes a report only when the scanner succeeded,
    the report file could be opened for writing, and the graph is one
    the loop gets through ([well_formed]). *)
Theorem written_only_if_well_formed (sc : scanner_run) (w w' : world) :
  main sc w = (Ok (), w') ->
  exists deps,
    returncode sc = 0%Z /\ parsed sc = Some deps /\ csv_writable w = true
    /\ well_formed (files w) deps.
Proof.
  intros (deps & recs & Hrc & Hdeps & Hw & Hloop & _)%main_Ok.
  exists deps. split_and!; [done..|]. unfold well_formed. split.
  - by eapply loop_Ok_dep_ok.
  - destruct (alphabetized_dep_names deps) as [|key keys]; [done|].
    cbn [loop] in Hloop.
    destruct (format_dep deps (files w) None key) as [[c' r]|] eqn:Hf; [|done].
    apply format_dep_inv in Hf
      as (meta & mo & name & url & cp & Hmeta & _ & _ & _ & Hcp & -> & _).
    exists meta. split; [done|]. by eapply extract_copyright_bound.
Qed.

(** *** Reading a license file *)

Lemma splitlines_concat (s : str) : concat (splitlines s) = s.
Proof.
  induction s as [|c s IH]; [done|]. cbn [splitlines].
  destruct (c =? 10); [cbn [concat app]; by rewrite IH|].
  destruct (splitlines s) as [|l ls]; cbn [concat app] in *; by rewrite <- IH.
Qed.

Lemma splitlines_lines (s : str) : Forall is_line (splitlines s).
Proof.
  induction s as [|c s IH]; [constructor|]. cbn [splitlines].
  destruct (N.eqb_spec c 10) as [->|Hc].
  - constructor; [|done]. exists []. split; [constructor | by left].
  - destruct (splitlines s) as [|l ls].
    + constructor; [|done]. exists [c]. split; [by constructor | by right].
    + apply Forall_cons in IH as [(body & Hbody & Hl) Hls]. constructor; [|done].
      exists (c :: body). split; [by constructor|].
      destruct Hl as [->|[-> _]]; [by left | by right].
Qed.

Lemma universal_newlines_no_cr (s : str) : Forall (fun c => c <> 13) (universal_newlines s).
Proof.
  induction s as [s IH] using (induction_ltof1 _ (@length char)); unfold ltof in IH.
  destruct s as [|c s]; [constructor|]. cbn [universal_newlines].
  destruct (N.eqb_spec c 13) as [->|Hc].
  - constructor; [done|]. destruct s as [|d s]; [constructor|].
    destruct (d =? 10); apply IH; cbn [length]; lia.
  - constructor; [done|]. apply IH. cbn [length]. lia.
Qed.

(** X11: the lines the loop of line 36 goes through are the text of the
    file, cut after each line feed and with nothing left out: put
    together they give the text back (a carriage return, alone or
    before a line feed, read as a line feed), no line is empty, and a
    line feed only stands at the end of a line. *)
Theorem readlines_partition (content : str) :
  concat (readlines content) = universal_newlines content
  /\ Forall is_line (readlines content)
  /\ Forall (fun line => Forall (fun c => c <> 13) line) (readlines content).
Proof.
  unfold readlines. split_and!.
  - apply splitlines_concat.
  - apply splitlines_lines.
  - pose proof (universal_newlines_no_cr content) as H.
    rewrite <- (splitlines_concat (universal_newlines content)) in H.
    by apply Forall_concat in H.
Qed.

(** X12: the rows of a report that was written are the records of the
    keys of the graph, one row for each key and no other, in the
    ascending order of the keys. *)
Theorem written_rows_follow_sorted_keys (sc : scanner_run) (w w' : world)
    (deps : graph) (doc : csv_document) :
  main sc w = (Ok (), w') -> parsed sc = Some deps -> csv_file w' = Some doc ->
  length (rows doc) = size deps
  /\ Sorted str_le (alphabetized_dep_names deps)
  /\ NoDup (alphabetized_dep_names deps)
  /\ (forall key, key ∈ alphabetized_dep_names deps <-> is_Some (deps !! key))
  /\ Forall2 (made_for deps (files w)) (alphabetized_dep_names deps) (rows doc).
Proof.
  intros Hmain Hdeps Hdoc.
  pose proof (main_rows sc w w' deps doc Hmain Hdeps Hdoc) as Hrows.
  split_and!; [|apply alphabetized_sorted|apply alphabetized_NoDup
              |apply alphabetized_elem_of|done].
  by rewrite <- (Forall2_length _ _ _ Hrows), alphabetized_length.
Qed.

(** X13: on a graph in which every key has a name, every repository
    value can be normalised, every license file named can be read and
    the first key in order has a license file with a copyright line,
    the loop of lines 25 to 47 raises nothing and makes one record for
    each key. *)
Theorem loop_completes (deps : graph) (files : gmap str str) :
  well_formed files deps ->
  exists recs,
    loop deps files (alphabetized_dep_names deps) None [] = Ok recs
    /\ length recs = size deps.
Proof.
  intros Hwf. destruct (loop_well_formed deps files Hwf) as [recs Hloop].
  exists recs. split; [done|].
  apply loop_rows in Hloop as (new & -> & Hrows). cbn [app].
  by rewrite <- (Forall2_length _ _ _ Hrows), alphabetized_length.
Qed.

End Script.

(** * The claims on the sample runs *)

(** C2, as the description states it, fails on a scoped package: the
    key starts with [@], the text before its first [@] is empty, and the
    Component written is the run of name characters before the second
    [@]. *)
Lemma component_of_scoped_key :
  (forall ua us, main ua us (scanned scoped_deps) sample_world
                 = (Ok (), written [scoped_record]))
  /\ alphabetized_dep_names scoped_deps = [lit "@datadog/native-metrics@1.0.0"]
  /\ Component scoped_record = lit "native-metrics"
  /\ before_first_at (lit "@datadog/native-metrics@1.0.0") = []
  /\ Component scoped_record <> before_first_at (lit "@datadog/native-metrics@1.0.0").
Proof. split_and!; [intros ua us; by vm_compute | by vm_compute..]. Qed.

Lemma component_of_simple_key_witness :
  Component abbrev_record = before_first_at (lit "abbrev@1.1.1").
Proof.
  apply (component_of_simple_key ascii_only ascii_only (scanned two_deps) sample_world
           (written [abbrev_record; eyes_record]) two_deps
           {| fieldnames := header; rows := [abbrev_record; eyes_record] |} 0);
    try (by vm_compute).
  vm_compute. repeat constructor.
Defined.


Lemma copyright_is_first_line_witness :
  trimmed_right ascii_only
    (lit "Copyright (c) Isaac Z. Schlueter and Contributors  " ++ [10])
    (Copyright abbrev_record).
Proof.
  apply (copyright_is_first_line ascii_only ascii_only (scanned two_deps) sample_world
           (written [abbrev_record; eyes_record]) two_deps
           {| fieldnames := header; rows := [abbrev_record; eyes_record] |} 0
           (lit "abbrev@1.1.1") abbrev_record abbrev_meta
           (lit "node_modules/abbrev/LICENSE") abbrev_license
           [lit "The ISC License" ++ [10]]
           (lit "Copyright (c) Isaac Z. Schlueter and Contributors  " ++ [10])
           [lit "Permission to use, copy, modify, and/or distribute this software"]);
    try (by vm_compute).
  repeat constructor.
Defined.

Lemma two_deps_well_formed : well_formed ascii_only sample_files two_deps.
Proof.
  assert (alphabetized_dep_names two_deps = [lit "abbrev@1.1.1"; lit "eyes@0.1.8"]) as H
    by (by vm_compute).
  unfold well_formed. rewrite H. split.
  - repeat constructor; by vm_compute.
  - exists abbrev_meta. split; by vm_compute.
Defined.

Lemma scanner_failure_writes_nothing_witness :
  main ascii_only ascii_only failed_scan old_world
  = (Raise (if decide (returncode failed_scan = 0%Z)
            then JSONDecodeError else CalledProcessError), old_world)
  /\ csv_file (main ascii_only ascii_only failed_scan old_world).2 = csv_file old_world.
Proof.
  apply (scanner_failure_writes_nothing ascii_only ascii_only failed_scan old_world).
  left. by vm_compute.
Defined.

(** C9, as stated, fails on a first key without a version: there is no
    license file, and what is raised is the AttributeError of line 27,
    before [dep_copyright] is read. *)
Lemma first_key_without_version :
  (forall ua us, main ua us (scanned bare_deps) sample_world
                 = (Raise AttributeError, sample_world))
  /\ head (alphabetized_dep_names bare_deps) = Some (lit "left-pad")
  /\ bare_deps !! lit "left-pad" = Some ∅
  /\ lacks_copyright sample_files ∅
  /\ AttributeError <> NameError.
Proof.
  split_and!; [intros ua us; by vm_compute | by vm_compute.. | by left | done].
Qed.

Lemma unbound_copyright_aborts_witness :
  (exists e, main ascii_only ascii_only (scanned foo_deps) sample_world
             = (Raise e, sample_world))
  /\ (returncode (scanned foo_deps) = 0%Z ->
      forall mo name url,
        re_search (name_re ascii_only) (lit "foo@1.0.0") = Some mo ->
        group_1 mo = Some name ->
        get_repo_url name {[ lit "repository" := VStr (lit "https://github.com/x/foo");
                             lit "licenses" := VStr (lit "MIT") ]} = Ok url ->
        main ascii_only ascii_only (scanned foo_deps) sample_world
        = (Raise NameError, sample_world)).
Proof.
  apply (unbound_copyright_aborts ascii_only ascii_only (scanned foo_deps) sample_world
           foo_deps (lit "foo@1.0.0")); try (by vm_compute).
  left. by vm_compute.
Defined.

Lemma key_without_name_aborts_witness :
  re_search (name_re ascii_only) (lit "left-pad") = None
  /\ (forall c, format_dep ascii_only ascii_only bare_deps (files sample_world) c
                  (lit "left-pad") = Raise AttributeError)
  /\ exists e, main ascii_only ascii_only (scanned bare_deps) sample_world
               = (Raise e, sample_world).
Proof.
  apply (key_without_name_aborts ascii_only ascii_only (scanned bare_deps) sample_world
           bare_deps (lit "left-pad")).
  - done.
  - exists ∅. by vm_compute.
  - apply name_before_at_spec. by vm_compute.
Defined.

(** * The further properties on the sample runs *)

Lemma get_repo_url_strips_scheme_witness :
  get_repo_url (lit "abbrev") abbrev_meta
  = Ok (take_while (fun c => negb (c =? 10)) (lit "github.com/isaacs/abbrev-js"))
  /\ (Forall (fun c => c <> 10) (lit "github.com/isaacs/abbrev-js") ->
      get_repo_url (lit "abbrev") abbrev_meta = Ok (lit "github.com/isaacs/abbrev-js")).
Proof.
  apply (get_repo_url_strips_scheme (lit "abbrev") abbrev_meta
           (lit "github.com/isaacs/abbrev-js")).
  by vm_compute.
Defined.

Lemma license_passed_through_witness :
  License eyes_record
  = match ({[ lit "licenses" := VStr (lit "MIT") ]} : metadata) !! lit "licenses" with
    | Some v => v
    | None => VStr (lit "LICENSE NOT FOUND")
    end.
Proof.
  apply (license_passed_through ascii_only ascii_only (scanned two_deps) sample_world
           (written [abbrev_record; eyes_record]) two_deps
           {| fieldnames := header; rows := [abbrev_record; eyes_record] |} 1
           (lit "eyes@0.1.8") eyes_record); by vm_compute.
Defined.

Lemma origin_without_repository_witness :
  Origin eyes_record
  = if decide (Component eyes_record = lit "eyes")
    then lit "github.com/cloudhead/eyes.js" else lit "NO REPO".
Proof.
  apply (origin_without_repository ascii_only ascii_only (scanned two_deps) sample_world
           (written [abbrev_record; eyes_record]) two_deps
           {| fieldnames := header; rows := [abbrev_record; eyes_record] |} 1
           (lit "eyes@0.1.8") eyes_record {[ lit "licenses" := VStr (lit "MIT") ]});
    by vm_compute.
Defined.

Lemma component_is_a_name_witness :
  Forall (fun r => Component r <> []
                   /\ Forall (fun c => name_char ascii_only c = true /\ c <> chr "@")
                             (Component r))
         [abbrev_record; eyes_record].
Proof.
  apply (component_is_a_name ascii_only ascii_only (scanned two_deps) sample_world
           (written [abbrev_record; eyes_record])
           {| fieldnames := header; rows := [abbrev_record; eyes_record] |});
    by vm_compute.
Defined.

Lemma copyright_always_present_witness :
  Forall (fun r => startswith (lit "Copyright") (Copyright r) = true)
         [abbrev_record; eyes_record].
Proof.
  apply (copyright_always_present ascii_only ascii_only (scanned two_deps) sample_world
           (written [abbrev_record; eyes_record])
           {| fieldnames := header; rows := [abbrev_record; eyes_record] |});
    by vm_compute.
Defined.

Lemma copyright_repeats_witness : Copyright eyes_record = Copyright abbrev_record.
Proof.
  apply (copyright_repeats ascii_only ascii_only (scanned two_deps) sample_world
           (written [abbrev_record; eyes_record]) two_deps
           {| fieldnames := header; rows := [abbrev_record; eyes_record] |} 0
           (lit "eyes@0.1.8") {[ lit "licenses" := VStr (lit "MIT") ]});
    try (by vm_compute).
  left. by vm_compute.
Defined.

Lemma unreadable_license_aborts_witness :
  exists e, main ascii_only ascii_only (scanned missing_deps) sample_world
            = (Raise e, sample_world).
Proof.
  apply (unreadable_license_aborts ascii_only ascii_only (scanned missing_deps)
           sample_world missing_deps (lit "zlib@1.0.0")
           {[ lit "licenseFile" := VStr (lit "node_modules/zlib/LICENSE") ]}
           (lit "node_modules/zlib/LICENSE")); by vm_compute.
Defined.

Lemma empty_graph_report_witness :
  main ascii_only ascii_only (scanned ∅) old_world
  = (Ok (), {| files := files old_world; csv_writable := true;
               csv_file := Some {| fieldnames := [lit "Component"; lit "Origin";
                                                  lit "License"; lit "Copyright"];
                                   rows := [] |} |}).
Proof.
  apply (empty_graph_report ascii_only ascii_only (scanned ∅) old_world); by vm_compute.
Defined.

Lemma written_only_if_well_formed_witness :
  exists deps,
    returncode (scanned two_deps) = 0%Z /\ parsed (scanned two_deps) = Some deps
    /\ csv_writable sample_world = true
    /\ well_formed ascii_only (files sample_world) deps.
Proof.
  apply (written_only_if_well_formed ascii_only ascii_only (scanned two_deps) sample_world
           (written [abbrev_record; eyes_record])).
  by vm_compute.
Defined.

Lemma get_repo_url_text_raises_iff_witness :
  get_repo_url (lit "foo") typo_meta = Raise AttributeError
  <-> AttributeError = AttributeError
      /\ startswith (lit "https") (lit "https:/github.com/x/foo") = true
      /\ ~ occurs_in (lit "https://") (lit "https:/github.com/x/foo").
Proof.
  apply (get_repo_url_text_raises_iff (lit "foo") typo_meta AttributeError).
  by vm_compute.
Defined.

Lemma written_rows_follow_sorted_keys_witness :
  length [abbrev_record; eyes_record] = size two_deps
  /\ Sorted str_le (alphabetized_dep_names two_deps)
  /\ NoDup (alphabetized_dep_names two_deps)
  /\ (forall key, key ∈ alphabetized_dep_names two_deps <-> is_Some (two_deps !! key))
  /\ Forall2 (made_for ascii_only ascii_only two_deps sample_files)
             (alphabetized_dep_names two_deps) [abbrev_record; eyes_record].
Proof.
  apply (written_rows_follow_sorted_keys ascii_only ascii_only (scanned two_deps)
           sample_world (written [abbrev_record; eyes_record]) two_deps
           {| fieldnames := header; rows := [abbrev_record; eyes_record] |});
    by vm_compute.
Defined.

Lemma loop_completes_witness :
  exists recs,
    loop ascii_only ascii_only two_deps sample_files (alphabetized_dep_names two_deps)
      None [] = Ok recs
    /\ length recs = size two_deps.
Proof.
  apply (loop_completes ascii_only ascii_only two_deps sample_files).
  exact two_deps_well_formed.
Defined.
